(** * ldpoisson_ex: parameter sweeps over a 1D Poisson simulator

    A shallow embedding of [ldpoisson_ex/models.py], [ldpoisson_ex/solver.py]
    and [ldpoisson_ex/data.py], and the properties of the sweep engine and of
    the report parser proved about it.

    Conventions of the embedding:
    - a Python [float] is a binary64 primitive float;
    - a Python [dict] is an association list in insertion order, updated in
      place when a key is assigned again;
    - a raising computation returns [Err e], a returning one [Ok v];
    - a [pathlib.Path] is the tuple of its parts, in the POSIX flavour. *)

From Stdlib Require Import ZArith List String Ascii Bool Arith Lia.
From Stdlib Require Import Floats.PrimFloat Floats.SpecFloat Floats.FloatOps.
From Stdlib Require Import Floats.FloatAxioms.
From Stdlib Require Import Numbers.Cyclic.Int63.Uint63.
From Stdlib Require Import DecimalString.
Import ListNotations.

#[local] Set Warnings "-inexact-float".
Local Open Scope string_scope.
Local Open Scope list_scope.

(* ===================================================================== *)
(** * Part I: definitions *)
(* ===================================================================== *)

(** ** Exceptions and results *)

(** The exception classes that the code can raise, together with the two
    classes that only the specification names ([ConfigError],
    [InvocationError]): no path of the source constructs those two. *)
Inductive exn : Type :=
| ConfigError
| InvocationError
| ZeroDivisionError
| ValueError
| TypeError
| KeyError
| IndexError
| AttributeError
| FileNotFoundError
| FileExistsError
| ShutilError
| OtherError (what : string).

Inductive result (A : Type) : Type :=
| Ok (a : A)
| Err (e : exn).

Arguments Ok {A} a.
Arguments Err {A} e.

Definition bind {A B : Type} (r : result A) (k : A -> result B) : result B :=
  match r with
  | Ok a => k a
  | Err e => Err e
  end.

Notation "x <- r ;; k" := (bind r (fun x => k))
  (at level 61, r at next level, right associativity).

(** ** Python dictionaries *)

Section Dict.
Context {V : Type}.

Definition dict : Type := list (string * V).

(** [d[k] = v]: an existing key keeps its position and takes the new value,
    a new key goes last. *)
Fixpoint dict_set (d : dict) (k : string) (v : V) : dict :=
  match d with
  | [] => [(k, v)]
  | (k', v') :: rest =>
      if String.eqb k k' then (k', v) :: rest
      else (k', v') :: dict_set rest k v
  end.

(** [d.get(k)]; [d[k]] raises [KeyError] where this is [None]. *)
Fixpoint dict_get (d : dict) (k : string) : option V :=
  match d with
  | [] => None
  | (k', v') :: rest => if String.eqb k k' then Some v' else dict_get rest k
  end.

Definition keys (d : dict) : list string := map fst d.
Definition values (d : dict) : list V := map snd d.

(** [dict(pairs)] and dictionary comprehensions: assignments in order. *)
Definition dict_of_pairs (ps : list (string * V)) : dict :=
  fold_left (fun d p => dict_set d (fst p) (snd p)) ps [].

(** [a | b]: a copy of [a] updated with the items of [b]. *)
Definition dict_union (a b : dict) : dict :=
  fold_left (fun d p => dict_set d (fst p) (snd p)) b a.

End Dict.

Arguments dict V : clear implicits.

(** ** models.py *)

(** [class Array(BaseModel)] *)
Record Array : Type := mkArray {
  start : float;
  end_ : float;
  step : float
}.

(** [value: list[float] | Array] *)
Inductive VariableValue : Type :=
| ValueList (l : list float)
| ValueArray (a : Array).

(** [class Variable(BaseModel)] ([Variable] is reserved here); [format]
    defaults to [None]. *)
Record Variable_ : Type := mkVariable {
  var_name : string;
  var_value : VariableValue;
  var_format : option string
}.

(** [class Constant(BaseModel)] *)
Record Constant : Type := mkConstant {
  const_name : string;
  const_value : float
}.

(** ** numpy.arange on two Python floats and a float step *)

(** The ceiling of a binary64 value as an integer; [None] for NaN and the
    infinities. *)
Definition ceil_float (x : float) : option Z :=
  match Prim2SF x with
  | S754_zero _ => Some 0%Z
  | S754_infinity _ => None
  | S754_nan => None
  | S754_finite s m e =>
      let num := if s then Z.neg m else Z.pos m in
      Some (if (0 <=? e)%Z then (num * 2 ^ e)%Z
            else (- ((- num) / 2 ^ (- e)))%Z)
  end.

(** [(double) i] for an index [i]. *)
Definition float_of_nat (i : nat) : float :=
  PrimFloat.of_uint63 (Uint63.of_Z (Z.of_nat i)).

(** The sign bit of a zero or of any other value. *)
Definition signbit (x : float) : bool :=
  match Prim2SF x with
  | S754_zero s => s
  | S754_infinity s => s
  | S754_nan => false
  | S754_finite s _ _ => s
  end.

Definition intp_bound : Z := (2 ^ 63)%Z.

(** [(npy_intp) x] for a double [x] that holds an integer between [-2^63] and
    [2^63], the bounds that the length check compares with as doubles: the
    one value that [npy_intp] cannot hold, [2^63], comes out as [-2^63] (the
    conversion of x86-64). *)
Definition intp_of_ceiling (ceiling : Z) : Z :=
  if (ceiling =? intp_bound)%Z then (- intp_bound)%Z else ceiling.

(** The most doubles that an array is allowed to hold: their byte count has
    to fit in [npy_intp]. *)
Definition max_elements : Z := ((intp_bound - 1) / 8)%Z.

(** The length rule of [numpy.arange] ([_calc_length], then the allocation):
    the quotient [(stop - start) / step] is a Python float division, which
    raises on a zero divisor; its ceiling is the length, except that a
    quotient that underflowed to zero gives length one (zero when it is a
    negative zero).  A quotient that is not a number, a ceiling outside the
    bounds and a length above [max_elements] all end in [ValueError]; a
    length that is not positive gives the empty array.  The memory is taken
    to suffice for every array that is allowed. *)
Definition arange_length (start stop step : float) : result Z :=
  let delta := (stop - start)%float in
  if (step =? 0)%float then Err ZeroDivisionError
  else
    let val := (delta / step)%float in
    match ceil_float val with
    | None => Err ValueError
    | Some ceiling =>
        if negb ((- intp_bound <=? ceiling)%Z && (ceiling <=? intp_bound)%Z)
        then Err ValueError
        else
          let len := if (val =? 0)%float && negb (delta =? 0)%float
                     then (if signbit val then 0%Z else 1%Z)
                     else intp_of_ceiling ceiling in
          if (max_elements <? len)%Z then Err ValueError else Ok len
    end.

(** The values: [start], then [start + step], then the fill loop
    [buffer[i] = start + i * delta] with [delta = buffer[1] - buffer[0]]. *)
Definition arange_fill (start step : float) (len : nat) : list float :=
  match len with
  | O => []
  | S O => [start]
  | S (S n) =>
      let next := (start + step)%float in
      let delta := (next - start)%float in
      start :: next ::
        map (fun i => (start + float_of_nat i * delta)%float) (seq 2 n)
  end.

Definition arange (start stop step : float) : result (list float) :=
  len <- arange_length start stop step ;;
  Ok (arange_fill start step (Z.to_nat len)).

(** ** solver.py: ParamsManager *)

Record ParamsManager : Type := mkParamsManager {
  _constants : dict float;
  _variables : dict (list float);
  _variable_formats : dict (option string)
}.

(** The first loop of [__init__]. *)
Definition init_constants (constants : list Constant) : dict float :=
  fold_left (fun d c => dict_set d (const_name c) (const_value c)) constants [].

(** The value list of one variable: the list itself, or [list(np.arange(...))]. *)
Definition materialize (v : VariableValue) : result (list float) :=
  match v with
  | ValueList l => Ok l
  | ValueArray a => arange (start a) (end_ a) (step a)
  end.

(** The second loop of [__init__], which stops at the first variable whose
    range cannot be materialized. *)
Fixpoint init_variables (d : dict (list float)) (variables : list Variable_)
  : result (dict (list float)) :=
  match variables with
  | [] => Ok d
  | var :: rest =>
      vals <- materialize (var_value var) ;;
      init_variables (dict_set d (var_name var) vals) rest
  end.

(** [{var.name: var.format for var in variables}] *)
Definition init_formats (variables : list Variable_) : dict (option string) :=
  dict_of_pairs (map (fun var => (var_name var, var_format var)) variables).

(** [ParamsManager.__init__] *)
Definition init (constants : list Constant) (variables : list Variable_)
  : result ParamsManager :=
  let cs := init_constants constants in
  vs <- init_variables [] variables ;;
  Ok (mkParamsManager cs vs (init_formats variables)).

(** [itertools.product] of the value lists: the rightmost iterable advances on
    every step. *)
Fixpoint product {A : Type} (ls : list (list A)) : list (list A) :=
  match ls with
  | [] => [[]]
  | l :: rest => flat_map (fun x => map (cons x) (product rest)) l
  end.

(** [ParamsManager.generate_variables], as the list of the points it yields. *)
Definition generate_variables (pm : ParamsManager) : list (dict float) :=
  match _variables pm with
  | [] => [_constants pm]
  | _ :: _ =>
      let var_names := keys (_variables pm) in
      let var_values := map (fun name =>
                               match dict_get (_variables pm) name with
                               | Some vals => vals
                               | None => []
                               end) var_names in
      map (fun combination => dict_of_pairs (combine var_names combination))
          (product var_values)
  end.

(** [ParamsManager.shape_variables] *)
Definition shape_variables (pm : ParamsManager) : list nat :=
  map (@List.length float) (values (_variables pm)).

(** [np.prod] of a shape tuple. *)
Definition prod (shape : list nat) : nat := fold_right Nat.mul 1 shape.

(** ** numpy arrays *)

(** An array is its shape and its elements in row-major order. *)
Record ndarray (A : Type) : Type := mkNdarray {
  nd_shape : list nat;
  nd_data : list A
}.

Arguments mkNdarray {A} nd_shape nd_data.
Arguments nd_shape {A} n.
Arguments nd_data {A} n.

(** [np.array(buffer).reshape(shape)] for a flat [buffer]: the element count
    must be the product of the new shape. *)
Definition reshape {A : Type} (buffer : list A) (shape : list nat)
  : result (ndarray A) :=
  if (List.length buffer =? prod shape)%nat then Ok (mkNdarray shape buffer)
  else Err ValueError.

(** The offset of a multi-index in row-major order. *)
Fixpoint ravel (index shape : list nat) : nat :=
  match index, shape with
  | i :: index', _ :: shape' => i * prod shape' + ravel index' shape'
  | _, _ => 0
  end.

Fixpoint in_bounds (index shape : list nat) : bool :=
  match index, shape with
  | [], [] => true
  | i :: index', n :: shape' => (i <? n)%nat && in_bounds index' shape'
  | _, _ => false
  end.

(** [a[i0, i1, ...]]; [None] where numpy raises [IndexError]. *)
Definition nd_get {A : Type} (a : ndarray A) (index : list nat) : option A :=
  if in_bounds index (nd_shape a)
  then nth_error (nd_data a) (ravel index (nd_shape a))
  else None.

(** ** str.format with one positional argument *)

(** A replacement field [{field_name!conversion:format_spec}]. *)
Record field : Type := mkField {
  field_name : string;
  conversion : option ascii;
  format_spec : string
}.

(** What Python does with one replacement field and the argument: the
    resolution of the field name (with the automatic numbering that
    [numbering] carries from field to field), the conversion and
    [format(value, format_spec)].  The sweep engine leaves all of it to the
    interpreter, so it is a parameter of the embedding. *)
Record Formatter : Type := mkFormatter {
  numbering : Type;
  numbering_init : numbering;
  render_field : numbering -> field -> float -> result (string * numbering)
}.

(** Where the scan of a format string stands. *)
Inductive mode : Type :=
| Literal
| OpenBrace
| CloseBrace
| FieldName (name : string)
| Bracket (name : string)
| Conversion (name : string)
| AfterConversion (name : string) (conv : ascii)
| Spec (name : string) (conv : option ascii) (spec : string) (depth : nat).

Definition snoc (s : string) (c : ascii) : string := s ++ String c "".

Section StrFormat.
Variable F : Formatter.

(** The scan of [str.format]: literal text is copied, a doubled brace is one
    brace, a lone closing brace is an error, and a field runs from an opening
    brace to the closing brace that matches it; each field is rendered when
    its closing brace is read. *)
Fixpoint str_format_from (m : mode) (out : string) (st : numbering F)
         (s : string) (v : float) : result string :=
  match s with
  | EmptyString =>
      match m with
      | Literal => Ok out
      | _ => Err ValueError
      end
  | String c rest =>
      let continue_ m' out' := str_format_from m' out' st rest v in
      let in_field_name name :=
        if Ascii.eqb c "{" then Err ValueError
        else if Ascii.eqb c "[" then continue_ (Bracket (snoc name c)) out
        else if Ascii.eqb c "}" then
          r <- render_field F st (mkField name None "") v ;;
          str_format_from Literal (out ++ fst r) (snd r) rest v
        else if Ascii.eqb c ":" then continue_ (Spec name None "" 1) out
        else if Ascii.eqb c "!" then continue_ (Conversion name) out
        else continue_ (FieldName (snoc name c)) out
      in
      match m with
      | Literal =>
          if Ascii.eqb c "{" then continue_ OpenBrace out
          else if Ascii.eqb c "}" then continue_ CloseBrace out
          else continue_ Literal (snoc out c)
      | OpenBrace =>
          if Ascii.eqb c "{" then continue_ Literal (snoc out c)
          else in_field_name ""
      | CloseBrace =>
          if Ascii.eqb c "}" then continue_ Literal (snoc out c)
          else Err ValueError
      | FieldName name => in_field_name name
      | Bracket name =>
          if Ascii.eqb c "]" then continue_ (FieldName (snoc name c)) out
          else continue_ (Bracket (snoc name c)) out
      | Conversion name => continue_ (AfterConversion name c) out
      | AfterConversion name conv =>
          if Ascii.eqb c "}" then
            r <- render_field F st (mkField name (Some conv) "") v ;;
            str_format_from Literal (out ++ fst r) (snd r) rest v
          else if Ascii.eqb c ":" then continue_ (Spec name (Some conv) "" 1) out
          else Err ValueError
      | Spec name conv spec depth =>
          if Ascii.eqb c "{" then continue_ (Spec name conv (snoc spec c) (S depth)) out
          else if Ascii.eqb c "}" then
            match depth with
            | S (S d) => continue_ (Spec name conv (snoc spec c) (S d)) out
            | _ =>
                r <- render_field F st (mkField name conv spec) v ;;
                str_format_from Literal (out ++ fst r) (snd r) rest v
            end
          else continue_ (Spec name conv (snoc spec c) depth) out
      end
  end.

(** [format_str.format(v)] *)
Definition str_format (format_str : string) (v : float) : result string :=
  str_format_from Literal "" (numbering_init F) format_str v.

(** The loop of [lDPoissonExSolver._get_dir_name]: one segment per item of
    [variables].  [variable_formats[k]] raises [KeyError] on a missing name,
    and [format_str.format] raises [AttributeError] when the format is
    [None]. *)
Fixpoint dir_name_segments (formats : dict (option string))
         (variables : dict float) : result (list string) :=
  match variables with
  | [] => Ok []
  | (k, v) :: rest =>
      match dict_get formats k with
      | None => Err KeyError
      | Some None => Err AttributeError
      | Some (Some format_str) =>
          text <- str_format format_str v ;;
          results <- dir_name_segments formats rest ;;
          Ok ((k ++ "(" ++ text ++ ")")%string :: results)
      end
  end.

(** [lDPoissonExSolver._get_dir_name] *)
Definition _get_dir_name (pm : ParamsManager) (variables : dict float)
  : result string :=
  results <- dir_name_segments (_variable_formats pm) variables ;;
  Ok (String.concat "_" results).

End StrFormat.

(** ** A formatter for fixed-point fields *)

(** The state of the automatic field numbering. *)
Inductive numbering_state : Type :=
| ANS_INIT
| ANS_AUTO (next : nat)
| ANS_MANUAL.

Definition round_half_even (num den : Z) : Z :=
  let q := (num / den)%Z in
  match (2 * (num mod den) ?= den)%Z with
  | Lt => q
  | Gt => (q + 1)%Z
  | Eq => if Z.even q then q else (q + 1)%Z
  end.

Fixpoint zeros (n : nat) : string :=
  match n with
  | O => ""
  | S k => String "0" (zeros k)
  end.

Definition digits_of (n : Z) : string :=
  NilZero.string_of_uint (N.to_uint (Z.to_N n)).

(** [format(v, ".Nf")]: the decimal expansion of the binary value, rounded to
    [precision] places, ties to even. *)
Definition fixed_point (precision : nat) (v : float) : string :=
  let point_and frac :=
    match precision with
    | O => ""
    | S _ => ("." ++ frac)%string
    end in
  match Prim2SF v with
  | S754_nan => "nan"
  | S754_infinity s => if s then "-inf" else "inf"
  | S754_zero s =>
      ((if s then "-" else "") ++ "0" ++ point_and (zeros precision))%string
  | S754_finite s m e =>
      let scaled := (Z.pos m * 10 ^ Z.of_nat precision)%Z in
      let n := if (0 <=? e)%Z then (scaled * 2 ^ e)%Z
               else round_half_even scaled (2 ^ (- e)) in
      let ds := digits_of n in
      let padded := (zeros (precision + 1 - String.length ds) ++ ds)%string in
      let cut := String.length padded - precision in
      ((if s then "-" else "")
         ++ substring 0 cut padded
         ++ point_and (substring cut precision padded))%string
  end.

Definition digit_value (c : ascii) : option nat :=
  let n := nat_of_ascii c in
  if (48 <=? n)%nat && (n <=? 57)%nat then Some (n - 48) else None.

(** The precision of a spec of the form [.Nf]. *)
Fixpoint precision_digits (acc : option nat) (s : string) : option nat :=
  match s with
  | "f" => acc
  | String c rest =>
      match digit_value c with
      | Some d =>
          precision_digits
            (Some (10 * match acc with Some a => a | None => 0 end + d)) rest
      | None => None
      end
  | EmptyString => None
  end.

Definition fixed_precision (spec : string) : option nat :=
  match spec with
  | String "." rest => precision_digits None rest
  | _ => None
  end.

(** The number that a field name of digits denotes. *)
Fixpoint number_of (acc : nat) (s : string) : option nat :=
  match s with
  | EmptyString => Some acc
  | String c rest =>
      match digit_value c with
      | Some d => number_of (10 * acc + d) rest
      | None => None
      end
  end.

Fixpoint has_accessor (s : string) : bool :=
  match s with
  | EmptyString => false
  | String c rest => Ascii.eqb c "." || Ascii.eqb c "[" || has_accessor rest
  end.

Definition outside_fragment : exn := OtherError "outside the modelled fragment".

(** A field renderer for the fields that the examples below use: the lone
    positional argument, named by nothing or by a number, no conversion, a
    format spec [.Nf].  On these it is what Python computes, with its errors
    for a second automatic field, a number other than zero, a keyword, and a
    switch between automatic and manual numbering; every other field is
    answered by [outside_fragment]. *)
Definition render_fixed (st : numbering_state) (fld : field) (v : float)
  : result (string * numbering_state) :=
  let name := field_name fld in
  if has_accessor name then Err outside_fragment
  else
    selected <-
      match name with
      | EmptyString =>
          match st with
          | ANS_MANUAL => Err ValueError
          | ANS_INIT => Ok (0, ANS_AUTO 1)
          | ANS_AUTO n => Ok (n, ANS_AUTO (S n))
          end
      | _ =>
          match number_of 0 name with
          | Some index =>
              match st with
              | ANS_AUTO _ => Err ValueError
              | _ => Ok (index, ANS_MANUAL)
              end
          | None => Err KeyError
          end
      end ;;
    match fst selected with
    | S _ => Err IndexError
    | O =>
        match conversion fld with
        | Some _ => Err outside_fragment
        | None =>
            match fixed_precision (format_spec fld) with
            | Some precision => Ok (fixed_point precision v, snd selected)
            | None => Err outside_fragment
            end
        end
    end.

Definition fixed_formatter : Formatter :=
  mkFormatter numbering_state ANS_INIT render_fixed.

(** A format string without braces has no replacement field. *)
Fixpoint brace_free (s : string) : bool :=
  match s with
  | EmptyString => true
  | String c rest =>
      negb (Ascii.eqb c "{") && negb (Ascii.eqb c "}") && brace_free rest
  end.

(** ** data.py: OutputData *)

Definition _FIELD_NAMES : list string :=
  ["Y (ang)"; "Ec (eV)"; "Ev (eV)"; "E (V/cm)"; "Ef (eV)"; "n (cm-3)";
   "p (cm-3)"; "Nd - Na (cm-3)"; "el eval 1 (eV)"].

(** One row of [csv.DictReader] with explicit field names: the cells under
    the names in order, [None] (the [restval]) under the names that the row is
    too short for.  Cells beyond the last name go under the key [None], which
    the parser never reads; they are left out. *)
Fixpoint dict_row (names : list string) (row : list string)
  : dict (option string) :=
  match names with
  | [] => []
  | name :: names' =>
      match row with
      | [] => (name, None) :: dict_row names' []
      | cell :: row' => (name, Some cell) :: dict_row names' row'
      end
  end.

Definition blank (row : list string) : bool :=
  match row with
  | [] => true
  | _ :: _ => false
  end.

(** The rows that [csv.DictReader] yields from the rows of [csv.reader]: it
    passes over the blank ones. *)
Definition DictReader (rows : list (list string)) : list (dict (option string)) :=
  map (dict_row _FIELD_NAMES) (filter (fun row => negb (blank row)) rows).

Record OutputData : Type := mkOutputData {
  z : list float;
  energy_conduction : list float;
  energy_valence : list float;
  electric_field : list float;
  energy_fermi : list float;
  density_electron : list float;
  density_hole : list float;
  energy_ground_state : option float;
  position_ground_state : option float
}.

(** The state of [__init__] before the loop. *)
Definition OutputData_empty : OutputData :=
  mkOutputData [] [] [] [] [] [] [] None None.

Section Parser.

(** [float(s)] on a string: [None] where Python raises [ValueError]. *)
Variable float_of_string : string -> option float.

(** [row[name]] *)
Definition row_get (row : dict (option string)) (name : string)
  : result (option string) :=
  match dict_get row name with
  | Some cell => Ok cell
  | None => Err KeyError
  end.

(** [float(cell)]: [TypeError] on [None], [ValueError] on a string that is
    not a number. *)
Definition float_ (cell : option string) : result float :=
  match cell with
  | None => Err TypeError
  | Some text =>
      match float_of_string text with
      | Some x => Ok x
      | None => Err ValueError
      end
  end.

Definition float_cell (row : dict (option string)) (name : string)
  : result float :=
  cell <- row_get row name ;;
  float_ cell.

(** The body of the loop of [OutputData.__init__] for a row after the first. *)
Definition parse_row (d : OutputData) (row : dict (option string))
  : result OutputData :=
  y <- float_cell row "Y (ang)" ;;
  ec <- float_cell row "Ec (eV)" ;;
  ev <- float_cell row "Ev (eV)" ;;
  e <- float_cell row "E (V/cm)" ;;
  ef <- float_cell row "Ef (eV)" ;;
  n <- float_cell row "n (cm-3)" ;;
  p <- float_cell row "p (cm-3)" ;;
  let d' := mkOutputData (z d ++ [(y / 10)%float])
                         (energy_conduction d ++ [ec])
                         (energy_valence d ++ [ev])
                         (electric_field d ++ [e])
                         (energy_fermi d ++ [ef])
                         (density_electron d ++ [n])
                         (density_hole d ++ [p]) in
  eigen <- row_get row "el eval 1 (eV)" ;;
  match eigen, energy_ground_state d with
  | Some _, None =>
      energy <- float_ eigen ;;
      position <- float_cell row "Y (ang)" ;;
      Ok (d' (Some energy) (Some (position / 10)%float))
  | _, _ => Ok (d' (energy_ground_state d) (position_ground_state d))
  end.

Fixpoint parse_rows (d : OutputData) (rows : list (dict (option string)))
  : result OutputData :=
  match rows with
  | [] => Ok d
  | row :: rest =>
      d' <- parse_row d row ;;
      parse_rows d' rest
  end.

(** [OutputData.__init__] on the rows that [csv.reader] finds in the file:
    the first row that the reader yields is passed over. *)
Definition OutputData_of_rows (rows : list (list string)) : result OutputData :=
  match DictReader rows with
  | [] => Ok OutputData_empty
  | _ :: data => parse_rows OutputData_empty data
  end.

End Parser.

(** The rows of the file that are parsed: the rows that are not blank, but
    for the first of them. *)
Definition data_rows (rows : list (list string)) : list (list string) :=
  tl (filter (fun row => negb (blank row)) rows).

(** What a row gives to a series: the number in its cell at [column]. *)
Definition cell_value (float_of_string : string -> option float)
           (column : nat) (row : list string) (x : float) : Prop :=
  exists cell, nth_error row column = Some cell /\ float_of_string cell = Some x.

(** A row with the seven numeric cells, and a number in the ninth cell when
    it has one. *)
Definition well_formed_row (float_of_string : string -> option float)
           (row : list string) : bool :=
  forallb (fun column =>
             match nth_error row column with
             | Some cell =>
                 match float_of_string cell with
                 | Some _ => true
                 | None => false
                 end
             | None => false
             end) (seq 0 7)
  && match nth_error row 8 with
     | Some cell =>
         match float_of_string cell with
         | Some _ => true
         | None => false
         end
     | None => true
     end.

(** A ninth cell that is there and holds text. *)
Definition eigen_cell (row : list string) : option string :=
  match nth_error row 8 with
  | Some "" => None
  | other => other
  end.

(** ** A [float] for short decimal literals *)

Fixpoint digits_value (acc : Z) (s : string) : option Z :=
  match s with
  | EmptyString => Some acc
  | String c rest =>
      match digit_value c with
      | Some d => digits_value (10 * acc + Z.of_nat d) rest
      | None => None
      end
  end.

(** The text before the first dot, and the text after it. *)
Fixpoint split_dot (s : string) : string * string :=
  match s with
  | EmptyString => ("", "")
  | String c rest =>
      if Ascii.eqb c "." then ("", rest)
      else let (whole, frac) := split_dot rest in (String c whole, frac)
  end.

(** A reader of numbers for the examples, which stands for [float] on short
    literals only: on digits with an optional minus sign and an optional
    fraction, of less than [2^53] as an integer and at most 18 places, it
    gives the quotient of two integers that binary64 holds exactly, which is
    the value of [float(s)].  On every other string it gives [None], also
    where [float] reads a number: an exponent, a plus sign, blanks or
    underscores, more digits, [inf], [nan]. *)
Definition short_decimal (s : string) : option float :=
  let (negative, body) :=
    match s with
    | String "-" rest => (true, rest)
    | _ => (false, s)
    end in
  let (whole, frac) := split_dot body in
  match (whole ++ frac)%string with
  | EmptyString => None
  | String _ _ as ds =>
      match digits_value 0 ds with
      | Some m =>
          if (m <? 2 ^ 53)%Z && (String.length frac <=? 18)%nat then
            let x := (of_uint63 (Uint63.of_Z m)
                      / of_uint63 (Uint63.of_Z (10 ^ Z.of_nat (String.length frac))))%float in
            Some (if negative then (- x)%float else x)
          else None
      | None => None
      end
  end.

(** [new] is [old] followed by one value per row, related to it by [R]. *)
Definition appended {A : Type} (R : list string -> A -> Prop)
           (rows : list (list string)) (old new : list A) : Prop :=
  exists xs, new = old ++ xs /\ Forall2 R rows xs.

(** The position that a row gives: its first cell, divided by ten. *)
Definition position_value (float_of_string : string -> option float)
           (row : list string) (x : float) : Prop :=
  exists y, cell_value float_of_string 0 row y /\ x = (y / 10)%float.

(** ** The file system and the persisted arrays *)

(** The pieces of [s] between the occurrences of [sep]. *)
Fixpoint split_on (sep : ascii) (piece : string) (s : string) : list string :=
  match s with
  | EmptyString => [piece]
  | String c rest =>
      if Ascii.eqb c sep then piece :: split_on sep "" rest
      else split_on sep (snoc piece c) rest
  end.

(** A path is the tuple of its parts, as [PurePosixPath.parts] gives them:
    the names from the outermost directory down to the file, after the root
    ["/"] (or ["//"]) when the path is absolute.  The empty tuple is the
    current directory.  Two paths are the same file when they have the same
    parts: links, [".."] and the place of the current directory are not
    resolved. *)
Definition path : Type := list string.

Definition is_root (part : string) : bool :=
  String.eqb part "/" || String.eqb part "//".

(** The root that a string starts with: two slashes are a root of their
    own, three or more are the same as one. *)
Definition root_of (s : string) : option string :=
  match s with
  | String "/" (String "/" (String "/" _)) => Some "/"
  | String "/" (String "/" _) => Some "//"
  | String "/" _ => Some "/"
  | _ => None
  end.

(** The segments of a string between its slashes, and those that a path
    keeps: not the empty ones, and not ["."]. *)
Definition segments (s : string) : list string := split_on "/" "" s.

Definition kept (segment : string) : bool :=
  negb (String.eqb segment "" || String.eqb segment ".").

(** [p / s] for a path [p] and a string [s]: the segments of [s] that are
    kept are added to [p], or to the root of [s] when it has one. *)
Definition joinpath (p : path) (s : string) : path :=
  match root_of s with
  | Some root => root :: filter kept (segments s)
  | None => p ++ filter kept (segments s)
  end.

Definition path_eqb (p q : path) : bool :=
  if list_eq_dec string_dec p q then true else false.

(** [p] is [q] or one of its ancestors. *)
Fixpoint is_prefix (p q : path) : bool :=
  match p, q with
  | [], _ => true
  | a :: p', b :: q' => String.eqb a b && is_prefix p' q'
  | _ :: _, [] => false
  end.

(** A string without a slash, the last segment of a string, and what
    [p / s] has before the part that the last segment of [s] gives. *)
Fixpoint slash_free (s : string) : bool :=
  match s with
  | EmptyString => true
  | String c rest => negb (Ascii.eqb c "/") && slash_free rest
  end.

Definition last_segment (s : string) : string := last (segments s) "".

Definition joinpath_front (p : path) (s : string) : path :=
  match root_of s with
  | Some root => root :: filter kept (removelast (segments s))
  | None => p ++ filter kept (removelast (segments s))
  end.

(** [path.parent]: a root is its own parent. *)
Definition parent (p : path) : path :=
  match p with
  | [part] => if is_root part then p else []
  | _ => removelast p
  end.

(** [os.path.basename] of a path that ends in a name. *)
Definition basename (p : path) : string := last p "".

(** The regular files with their text, and the directories that were made;
    the ancestors of both are directories too. *)
Record filesystem : Type := mkFilesystem {
  files : list (path * string);
  dirs : list path
}.

Fixpoint fs_read_in (l : list (path * string)) (p : path) : option string :=
  match l with
  | [] => None
  | (q, text) :: rest => if path_eqb p q then Some text else fs_read_in rest p
  end.

Definition fs_read (fs : filesystem) (p : path) : option string :=
  fs_read_in (files fs) p.

Definition fs_remove (fs : filesystem) (p : path) : filesystem :=
  mkFilesystem (filter (fun entry => negb (path_eqb p (fst entry))) (files fs))
               (dirs fs).

Definition fs_write (fs : filesystem) (p : path) (text : string) : filesystem :=
  mkFilesystem ((p, text) :: files (fs_remove fs p)) (dirs fs).

(** The current directory and the roots are there in every file system. *)
Definition always_there (p : path) : bool :=
  match p with
  | [] => true
  | [part] => is_root part
  | _ => false
  end.

(** [os.path.exists] *)
Definition path_exists (fs : filesystem) (p : path) : bool :=
  always_there p || existsb (is_prefix p) (map fst (files fs) ++ dirs fs).

(** A regular file stands where [p] needs a directory: on the way to [p],
    the system answers [NotADirectoryError]. *)
Definition under_file (fs : filesystem) (p : path) : bool :=
  existsb (fun q => is_prefix q p && negb (path_eqb q p)) (map fst (files fs)).

(** [os.path.isdir] *)
Definition is_dir (fs : filesystem) (p : path) : bool :=
  match fs_read fs p with
  | Some _ => false
  | None => path_exists fs p
  end.

(** An array given to [np.save]: the values of a variable, or the reshaped
    ground-state scalars, where a run without ground state leaves [None]. *)
Inductive saved_array : Type :=
| VariableValues (vals : list float)
| GroundStates (arr : ndarray (option float)).

(** The file system, and the arrays persisted so far with their paths. *)
Record world : Type := mkWorld {
  fs : filesystem;
  saved : list (path * saved_array)
}.

(** Computations that act on the world and may raise. *)
Definition M (A : Type) : Type := world -> result A * world.

Definition ret {A : Type} (a : A) : M A := fun w => (Ok a, w).

Definition bindM {A B : Type} (c : M A) (k : A -> M B) : M B :=
  fun w =>
    match c w with
    | (Ok a, w') => k a w'
    | (Err e, w') => (Err e, w')
    end.

Notation "x <~ c ;; k" := (bindM c (fun x => k))
  (at level 61, c at next level, right associativity).

Definition lift {A : Type} (r : result A) : M A := fun w => (r, w).

(** [open(p, "w")] followed by [f.write(text)] *)
Definition write_file (p : path) (text : string) : M unit :=
  fun w => (Ok tt, mkWorld (fs_write (fs w) p text) (saved w)).

(** [os.makedirs(p)]: the leaf must not be there yet, and no regular file
    may stand on the way to it. *)
Definition makedirs (p : path) : M unit :=
  fun w =>
    if path_exists (fs w) p then (Err FileExistsError, w)
    else if under_file (fs w) p then (Err (OtherError "NotADirectoryError"), w)
    else (Ok tt, mkWorld (mkFilesystem (files (fs w)) (p :: dirs (fs w))) (saved w)).

(** [shutil.move(src, dst)] for a [src] that is a regular file or is not
    there (the move of a directory is not modelled): into [dst] when that is
    a directory, where the name must be free; a missing [src] makes the
    rename, and then the copy, raise [FileNotFoundError]. *)
Definition move (src dst : path) : M unit :=
  fun w =>
    let into := is_dir (fs w) dst in
    let real_dst := if into then dst ++ [basename src] else dst in
    if into && path_exists (fs w) real_dst then (Err ShutilError, w)
    else
      match fs_read (fs w) src with
      | None => (Err FileNotFoundError, w)
      | Some text =>
          (Ok tt, mkWorld (fs_write (fs_remove (fs w) src) real_dst text) (saved w))
      end.

(** [np.save(p, arr)] for a [p] that ends in [.npy]: the file is opened for
    writing, which needs its directory and fails on a directory; the array
    is then recorded with its path. *)
Definition np_save (p : path) (arr : saved_array) : M unit :=
  fun w =>
    if under_file (fs w) p then (Err (OtherError "NotADirectoryError"), w)
    else if negb (path_exists (fs w) (parent p)) then (Err FileNotFoundError, w)
    else if is_dir (fs w) p then (Err (OtherError "IsADirectoryError"), w)
    else (Ok tt, mkWorld (fs w) (saved w ++ [(p, arr)])).

(** ** models.py: SimulationConfig *)

Record SimulationConfig : Type := mkSimulationConfig {
  file_template : path;
  dir_output : path;
  path_1d_poisson : path;
  log_file : option string;
  variables : list Variable_;
  constants : list Constant
}.

(** ** solver.py: lDPoissonExSolver *)

Record lDPoissonExSolver : Type := mklDPoissonExSolver {
  _config : SimulationConfig;
  _params_manager : ParamsManager
}.

(** [lDPoissonExSolver.__init__], but for the template lookup and the
    logging handlers. *)
Definition solver_init (config : SimulationConfig) : result lDPoissonExSolver :=
  pm <- init (constants config) (variables config) ;;
  Ok (mklDPoissonExSolver config pm).

Section Solver.

(** The collaborators of the solver: the formatter of [str.format], the
    template ([self._template.render]), the simulator started by [sp.run] in
    its own directory with the identifier as argument, which may change the
    file system in any way, the tab-delimited [csv.reader] and [float]. *)
Variable F : Formatter.
Variable render : dict float -> result string.
Variable simulator : path -> string -> filesystem -> result filesystem.
Variable csv_reader : string -> list (list string).
Variable float_of_string : string -> option float.

Variable self : lDPoissonExSolver.

(** [OutputData(output_file)] *)
Definition OutputData_init (output_file : path) : M OutputData :=
  fun w =>
    if under_file (fs w) output_file
    then (Err (OtherError "NotADirectoryError"), w)
    else
      match fs_read (fs w) output_file with
      | None =>
          if path_exists (fs w) output_file
          then (Err (OtherError "IsADirectoryError"), w)
          else (Err FileNotFoundError, w)
      | Some text => (OutputData_of_rows float_of_string (csv_reader text), w)
      end.

(** [sp.run] *)
Definition sp_run (path_app : path) (argument : string) : M unit :=
  fun w =>
    match simulator path_app argument (fs w) with
    | Ok fs' => (Ok tt, mkWorld fs' (saved w))
    | Err e => (Err e, w)
    end.

(** [_run_single] down to the return of the simulator: the identifier, the
    input file (opened, then written with the rendered template) and the
    run, which takes place in the directory of the simulator.  The messages
    to the logger are left out, here and below. *)
Definition invoke (constants : dict float) (variables : dict float) : M string :=
  let path_app := path_1d_poisson (_config self) in
  input_file_name <~ lift (_get_dir_name F (_params_manager self) variables) ;;
  let input_file := joinpath (parent path_app) (input_file_name ++ ".txt") in
  _ <~ write_file input_file "" ;;
  text <~ lift (render (dict_union constants variables)) ;;
  _ <~ write_file input_file text ;;
  _ <~ sp_run path_app input_file_name ;;
  ret input_file_name.

(** The rest of [_run_single]: the output directory, the four moves and the
    parse of the moved report. *)
Definition collect (input_file_name : string) : M OutputData :=
  let path_app := path_1d_poisson (_config self) in
  let input_file := joinpath (parent path_app) (input_file_name ++ ".txt") in
  let dir_out_single := joinpath (dir_output (_config self)) input_file_name in
  _ <~ makedirs dir_out_single ;;
  let path_out := joinpath (parent path_app) (input_file_name ++ "_Out.txt") in
  let path_status := joinpath (parent path_app) (input_file_name ++ "_Status.txt") in
  let path_wave := joinpath (parent path_app) (input_file_name ++ "_Wave.txt") in
  _ <~ move input_file dir_out_single ;;
  _ <~ move path_out dir_out_single ;;
  _ <~ move path_status dir_out_single ;;
  _ <~ move path_wave dir_out_single ;;
  OutputData_init (joinpath dir_out_single (input_file_name ++ "_Out.txt")).

(** [lDPoissonExSolver._run_single] *)
Definition _run_single (constants : dict float) (variables : dict float)
  : M OutputData :=
  input_file_name <~ invoke constants variables ;;
  collect input_file_name.

(** The loop of [run] over the points, which appends the two scalars of each
    report to the buffers. *)
Fixpoint run_points (points : list (dict float))
         (energies_ground_states positions_ground_states : list (option float))
  : M (list (option float) * list (option float)) :=
  match points with
  | [] => ret (energies_ground_states, positions_ground_states)
  | variables :: rest =>
      output <~ _run_single (_constants (_params_manager self)) variables ;;
      run_points rest
                 (energies_ground_states ++ [energy_ground_state output])
                 (positions_ground_states ++ [position_ground_state output])
  end.

(** The first loop of the finalization: one array per variable. *)
Fixpoint save_variables (items : dict (list float)) : M unit :=
  match items with
  | [] => ret tt
  | (var_name, var_values) :: rest =>
      _ <~ np_save (joinpath (dir_output (_config self)) (var_name ++ ".npy"))
                   (VariableValues var_values) ;;
      save_variables rest
  end.

(** [lDPoissonExSolver.run] *)
Definition run : M unit :=
  let pm := _params_manager self in
  buffers <~ run_points (generate_variables pm) [] [] ;;
  _ <~ save_variables (_variables pm) ;;
  energies_ground_states <~ lift (reshape (fst buffers) (shape_variables pm)) ;;
  positions_ground_states <~ lift (reshape (snd buffers) (shape_variables pm)) ;;
  _ <~ np_save (joinpath (dir_output (_config self)) "energies_ground_states.npy")
               (GroundStates energies_ground_states) ;;
  np_save (joinpath (dir_output (_config self)) "positions_ground_states.npy")
          (GroundStates positions_ground_states).

End Solver.

(** ** A reader for reports without quoted cells *)

Definition tab : ascii := ascii_of_nat 9.
Definition newline : ascii := ascii_of_nat 10.

(** [csv.reader(f, delimiter="\t")] on a text without quotes: one row per
    line, the empty row for an empty line. *)
Definition tab_reader (text : string) : list (list string) :=
  let lines := split_on newline "" text in
  let lines := match rev lines with
               | EmptyString :: others => rev others
               | _ => lines
               end in
  map (fun line => match line with
                   | EmptyString => []
                   | _ => split_on tab "" line
                   end) lines.

(** ** Two sweeps *)

Definition join_lines (rows : list (list string)) : string :=
  String.concat "" (map (fun row => (String.concat (String tab "") row
                                      ++ String newline "")%string) rows).

Definition example_config : SimulationConfig :=
  mkSimulationConfig ["templates"; "input.txt"] ["results"]
                     ["bin"; "1DPoisson.exe"] None
                     [mkVariable "V" (ValueList [0; 0.5]%float) (Some "{:.1f}")]
                     [mkConstant "T" 300%float].

Definition example_solver : lDPoissonExSolver :=
  mklDPoissonExSolver example_config
    (mkParamsManager [("T", 300%float)] [("V", [0; 0.5]%float)]
                     [("V", Some "{:.1f}")]).

Definition example_render (context : dict float) : result string :=
  Ok "input".

(** A simulator that writes its three files next to the input file. *)
Definition writing_simulator (report : string)
           (path_app : path) (argument : string) (fs : filesystem)
  : result filesystem :=
  let here name := joinpath (parent path_app) (argument ++ name) in
  Ok (fs_write (fs_write (fs_write fs (here "_Out.txt") report)
                         (here "_Status.txt") "ok")
               (here "_Wave.txt") "").

(** A simulator that returns without writing anything. *)
Definition silent_simulator (path_app : path) (argument : string)
           (fs : filesystem) : result filesystem :=
  Ok fs.

Definition empty_world : world := mkWorld (mkFilesystem [] []) [].



(** ** Predicates of the statements *)

(** How one item of a point becomes one segment of the identifier. *)
Definition segment_of (F : Formatter) (formats : dict (option string)) (point : dict float)
           (name seg : string) : Prop :=
  exists format_str v text,
    dict_get formats name = Some (Some format_str) /\
    dict_get point name = Some v /\
    str_format F format_str v = Ok text /\
    seg = (name ++ "(" ++ text ++ ")")%string.

(** The number in a cell, when the cell is there and holds one. *)
Definition number_at (float_of_string : string -> option float)
           (column : nat) (row : list string) : option float :=
  match nth_error row column with
  | Some cell => float_of_string cell
  | None => None
  end.

(** A computation that persists no array. *)
Definition preserves_saved {A : Type} (c : M A) : Prop :=
  forall w r w', c w = (r, w') -> saved w' = saved w.

(** ** Sweeps and a report for the examples *)

Definition sweep_constants : list Constant := [mkConstant "T" 300%float].
Definition sweep_variables : list Variable_ :=
  [mkVariable "V" (ValueList [0; 0.5]%float) (Some "{:.1f}");
   mkVariable "W" (ValueArray (mkArray 1 1.3 0.1)) (Some "{}")].
Definition sweep_manager : ParamsManager :=
  mkParamsManager [("T", 300%float)]
    [("V", [0; 0.5]%float);
     ("W", [1; 1.1; 1.2000000000000002; 1.3000000000000003]%float)]
    [("V", Some "{:.1f}"); ("W", Some "{}")].

Definition printf_variables : list Variable_ :=
  [mkVariable "V" (ValueList [0; 0.5]%float) (Some "%.1f")].
Definition printf_manager : ParamsManager :=
  mkParamsManager [("T", 300%float)] [("V", [0; 0.5]%float)]
                  [("V", Some "%.1f")].

Definition brace_variables : list Variable_ :=
  [mkVariable "V" (ValueList [0; 0.5]%float) (Some "{:.1f}");
   mkVariable "W" (ValueList [1.25]%float) (Some "{:.2f}")].
Definition brace_manager : ParamsManager :=
  mkParamsManager [("T", 300%float)]
                  [("V", [0; 0.5]%float); ("W", [1.25]%float)]
                  [("V", Some "{:.1f}"); ("W", Some "{:.2f}")].

Definition bare_variables : list Variable_ :=
  [mkVariable "V" (ValueList [0; 0.5]%float) None].
Definition bare_manager : ParamsManager :=
  mkParamsManager [] [("V", [0; 0.5]%float)] [("V", None)].

(** A report of a header and three rows, the last two with an eigen-energy. *)
Definition report_header : list string := _FIELD_NAMES.
Definition report_row1 : list string :=
  ["0"; "1.5"; "-0.5"; "100"; "0.25"; "10"; "20"; "5"].
Definition report_row2 : list string :=
  ["10"; "1.25"; "-0.75"; "200"; "0.25"; "30"; "40"; "5"; "0.125"].
Definition report_row3 : list string :=
  ["25"; "1.0"; "-1.0"; "300"; "0.25"; "50"; "60"; "5"; "0.5"].
Definition report_rows : list (list string) :=
  [report_header; report_row1; []; report_row2; report_row3].
Definition report_parsed : OutputData :=
  mkOutputData [0; 1; 2.5]%float [1.5; 1.25; 1]%float
               [-0.5; -0.75; -1]%float [100; 200; 300]%float
               [0.25; 0.25; 0.25]%float [10; 30; 50]%float
               [20; 40; 60]%float (Some 0.125%float) (Some 1%float).




(** ** More sweeps for the examples *)

(** A sweep whose second range has a zero step. *)
Definition zero_step_variables : list Variable_ :=
  [mkVariable "V" (ValueList [0; 0.5]%float) (Some "{:.1f}");
   mkVariable "W" (ValueArray (mkArray 0 1 0)) None;
   mkVariable "X" (ValueList [1]%float) None].

(** A sweep with a variable that has no value. *)
Definition hollow_variables : list Variable_ :=
  [mkVariable "V" (ValueList [0; 0.5]%float) (Some "{:.1f}");
   mkVariable "W" (ValueList []) (Some "{:.1f}")].
Definition hollow_manager : ParamsManager :=
  mkParamsManager [("T", 300%float)]
                  [("V", [0; 0.5]%float); ("W", [])]
                  [("V", Some "{:.1f}"); ("W", Some "{:.1f}")].

(** A configuration with constants and no variable. *)
Definition constants_only_manager : ParamsManager :=
  mkParamsManager [("T", 300%float)] [] [].
Definition constants_only_solver : lDPoissonExSolver :=
  mklDPoissonExSolver
    (mkSimulationConfig ["templates"; "input.txt"] ["results"]
                        ["bin"; "1DPoisson.exe"] None [] sweep_constants)
    constants_only_manager.

(** A sweep with a constant and a variable of the same name. *)
Definition shadow_constants : list Constant :=
  [mkConstant "T" 300%float; mkConstant "V" 9%float].
Definition shadow_manager : ParamsManager :=
  mkParamsManager [("T", 300%float); ("V", 9%float)]
                  [("V", [0; 0.5]%float); ("W", [1.25]%float)]
                  [("V", Some "{:.1f}"); ("W", Some "{:.2f}")].

(** A solver for the sweep that a variable without values empties. *)
Definition hollow_solver : lDPoissonExSolver :=
  mklDPoissonExSolver
    (mkSimulationConfig ["templates"; "input.txt"] ["results"]
                        ["bin"; "1DPoisson.exe"] None
                        hollow_variables sweep_constants)
    hollow_manager.

(** A solver without variables and without constants, and a world in which
    the output root is there. *)
Definition defaults_solver : lDPoissonExSolver :=
  mklDPoissonExSolver
    (mkSimulationConfig ["templates"; "input.txt"] ["results"]
                        ["bin"; "1DPoisson.exe"] None [] [])
    (mkParamsManager [] [] []).

Definition root_world : world := mkWorld (mkFilesystem [] [["results"]]) [].

(** ** Predicates of the further statements *)

(** The points processed one after the other by [step], from one world to
    another, with the report of each. *)
Inductive processed (step : dict float -> M OutputData)
  : list (dict float) -> world -> list OutputData -> world -> Prop :=
| processed_nil w : processed step [] w [] w
| processed_cons point points w output w1 outputs w2 :
    step point w = (Ok output, w1) ->
    processed step points w1 outputs w2 ->
    processed step (point :: points) w (output :: outputs) w2.

(** The suffixes of the four files of a point: the input file and the three
    files of the simulator. *)
Definition artifact_suffixes : list string :=
  [".txt"; "_Out.txt"; "_Status.txt"; "_Wave.txt"].

(** A path without [".."]: it names the directories that it spells. *)
Definition dotdot_free (p : path) : bool :=
  forallb (fun part => negb (String.eqb part "..")) p.


(** [D] is a directory that holds nothing but the files [moved], and no
    regular file is on the way to it. *)
Definition holding (D : path) (moved : list string) (fs : filesystem) : Prop :=
  In D (dirs fs) /\
  fs_read fs D = None /\
  (forall b, path_exists fs (D ++ [b]) = true -> In b moved) /\
  (forall q, In q (map fst (files fs)) -> is_prefix q D = false).

(** A row whose first seven cells hold numbers. *)
Definition seven_numbers (float_of_string : string -> option float)
           (row : list string) : bool :=
  forallb (fun column =>
             match number_at float_of_string column row with
             | Some _ => true
             | None => false
             end) (seq 0 7).

(** A template that refers to a name that the context does not bind. *)
Definition failing_render (context : dict float) : result string :=
  Err (OtherError "UndefinedError").

(** The world in which the example sweep stops when its template fails. *)
Definition first_point_failed : world :=
  Eval vm_compute in
    snd (run fixed_formatter failing_render silent_simulator tab_reader
             short_decimal example_solver empty_world).

(** A world in which the directory of the first point is there already, and
    the world that the simulator leaves when the sweep is run again. *)
Definition rerun_world : world :=
  mkWorld (mkFilesystem [] [["results"; "V(0.0)"]]) [].

Definition rerun_invoked : world :=
  Eval vm_compute in
    snd (invoke fixed_formatter example_render
                (writing_simulator (join_lines report_rows)) example_solver
                [("T", 300%float)] [("V", 0%float)] rerun_world).

(** The world that the simulator leaves at the first point of the example
    sweep. *)
Definition first_point_invoked : world :=
  Eval vm_compute in
    snd (invoke fixed_formatter example_render
                (writing_simulator (join_lines report_rows)) example_solver
                [("T", 300%float)] [("V", 0%float)] empty_world).

(** The world at the end of the example sweep. *)
Definition example_sweep_done : world :=
  Eval vm_compute in
    snd (run fixed_formatter example_render
             (writing_simulator (join_lines report_rows)) tab_reader
             short_decimal example_solver empty_world).

(** The arrays of the variables, as the finalization persists them. *)
Definition variable_arrays (dir_output : path) (items : dict (list float))
  : list (path * saved_array) :=
  map (fun item => (joinpath dir_output (fst item ++ ".npy"),
                    VariableValues (snd item))) items.

(** Reports for the examples: a data row that is too short, a data row
    whose ninth cell is there and empty, and rows with text in the ninth cell
    after the eigen-energy. *)
Definition short_report : list (list string) :=
  [report_header; report_row1; ["10"; "1.25"; "-0.75"]; report_row3].
Definition trailing_tab_report : list (list string) :=
  [report_header; report_row1;
   ["10"; "1.25"; "-0.75"; "200"; "0.25"; "30"; "40"; "5"; ""]].
Definition noisy_report : list (list string) :=
  [report_header; report_row1; report_row2;
   ["25"; "1.0"; "-1.0"; "300"; "0.25"; "50"; "60"; "5"; "n/a"];
   ["40"; "1.0"; "-1.0"; "300"; "0.25"; "50"; "60"; "5"; ""]].

(** What the loop of [_get_dir_name] makes of one item of the point: its
    segment, or the exception that the item raises. *)
Definition segment_result (F : Formatter) (formats : dict (option string))
           (item : string * float) : result string :=
  match dict_get formats (fst item) with
  | None => Err KeyError
  | Some None => Err AttributeError
  | Some (Some format_str) =>
      text <- str_format F format_str (snd item) ;;
      Ok (fst item ++ "(" ++ text ++ ")")%string
  end.

(** A sweep in which the second variable has no format. *)
Definition half_formatted_manager : ParamsManager :=
  mkParamsManager [("T", 300%float)]
                  [("V", [0; 0.5]%float); ("W", [1.25]%float)]
                  [("V", Some "{:.1f}"); ("W", None)].

(* ===================================================================== *)
(** * Part II: properties *)
(* ===================================================================== *)

(** ** Facts about dictionaries *)

Section DictFacts.
Context {V : Type}.
Implicit Types (d : dict V) (k : string) (v : V).

Lemma keys_dict_set_in d k v :
  In k (keys d) -> keys (dict_set d k v) = keys d.
Proof.
  induction d as [|[k' v'] d IH]; simpl; [tauto|].
  intros H. destruct (String.eqb_spec k k') as [->|Hne]; simpl; [reflexivity|].
  f_equal. apply IH. destruct H as [H|H]; [congruence|exact H].
Qed.

Lemma keys_dict_set_notin d k v :
  ~ In k (keys d) -> keys (dict_set d k v) = keys d ++ [k].
Proof.
  induction d as [|[k' v'] d IH]; simpl; [reflexivity|].
  intros H. destruct (String.eqb_spec k k') as [->|Hne]; simpl.
  - exfalso. apply H. now left.
  - f_equal. apply IH. intros Hin. apply H. now right.
Qed.

Lemma in_keys_dec k (l : list string) : {In k l} + {~ In k l}.
Proof. apply in_dec, string_dec. Qed.

Lemma NoDup_keys_dict_set d k v :
  NoDup (keys d) -> NoDup (keys (dict_set d k v)).
Proof.
  intros Hnd. destruct (in_keys_dec k (keys d)) as [Hin|Hnin].
  - now rewrite keys_dict_set_in.
  - rewrite keys_dict_set_notin by assumption.
    apply NoDup_app; [assumption|repeat constructor; simpl; tauto|].
    intros x Hx [<-|[]]. contradiction.
Qed.

Lemma dict_get_set_same d k v : dict_get (dict_set d k v) k = Some v.
Proof.
  induction d as [|[k' v'] d IH]; simpl.
  - now rewrite String.eqb_refl.
  - destruct (String.eqb_spec k k') as [->|Hne]; simpl.
    + now rewrite String.eqb_refl.
    + destruct (String.eqb_spec k k'); [contradiction|exact IH].
Qed.

Lemma dict_get_set_other d k k' v :
  k' <> k -> dict_get (dict_set d k v) k' = dict_get d k'.
Proof.
  intros Hne. induction d as [|[k0 v0] d IH]; simpl.
  - destruct (String.eqb_spec k' k); [contradiction|reflexivity].
  - destruct (String.eqb_spec k k0) as [->|Hk]; simpl.
    + destruct (String.eqb_spec k' k0); [contradiction|reflexivity].
    + destruct (String.eqb_spec k' k0); [reflexivity|exact IH].
Qed.

Lemma dict_get_in d k v :
  NoDup (keys d) -> In (k, v) d -> dict_get d k = Some v.
Proof.
  induction d as [|[k' v'] d IH]; simpl; [tauto|].
  intros Hnd [Heq|Hin].
  - inversion Heq; subst. now rewrite String.eqb_refl.
  - inversion Hnd as [|? ? Hnotin Hnd']; subst.
    destruct (String.eqb_spec k k') as [->|Hne].
    + exfalso. apply Hnotin. change k' with (fst (k', v)). now apply in_map.
    + now apply IH.
Qed.

Lemma dict_get_nth d n k v :
  NoDup (keys d) -> nth_error d n = Some (k, v) -> dict_get d k = Some v.
Proof. intros Hnd Hn. apply dict_get_in; [assumption|]. eapply nth_error_In, Hn. Qed.

(** Reading every key of a dictionary back gives its values in order. *)
Lemma lookup_keys_values d (dflt : V) :
  NoDup (keys d) ->
  map (fun name => match dict_get d name with Some x => x | None => dflt end)
      (keys d) = values d.
Proof.
  intros Hnd. unfold keys, values. rewrite map_map.
  apply map_ext_in. intros [k v] Hin. simpl.
  now erewrite dict_get_in by eassumption.
Qed.

(** Building a dictionary from pairs with distinct keys keeps the pairs. *)
Lemma fold_dict_set_nodup (ps : list (string * V)) d :
  NoDup (keys d ++ map fst ps) ->
  fold_left (fun d p => dict_set d (fst p) (snd p)) ps d = d ++ ps.
Proof.
  revert d. induction ps as [|[k v] ps IH]; intros d Hnd; simpl.
  - now rewrite app_nil_r.
  - assert (Hnotin : ~ In k (keys d)).
    { intros Hin. apply NoDup_remove_2 in Hnd. apply Hnd.
      apply in_or_app. now left. }
    assert (Hset : dict_set d k v = d ++ [(k, v)]).
    { clear -Hnotin. induction d as [|[k' v'] d IHd]; simpl; [reflexivity|].
      destruct (String.eqb_spec k k') as [->|Hne].
      - exfalso. apply Hnotin. now left.
      - f_equal. apply IHd. intros Hin. apply Hnotin. now right. }
    rewrite Hset, IH.
    + now rewrite <- app_assoc.
    + unfold keys in *. rewrite map_app. simpl. now rewrite <- app_assoc.
Qed.

Lemma dict_of_pairs_nodup (ps : list (string * V)) :
  NoDup (map fst ps) -> dict_of_pairs ps = ps.
Proof. intros Hnd. unfold dict_of_pairs. now rewrite fold_dict_set_nodup. Qed.

End DictFacts.

(** ** Facts about ParamsManager *)

Lemma init_variables_NoDup vs : forall d d',
  NoDup (keys d) -> init_variables d vs = Ok d' -> NoDup (keys d').
Proof.
  induction vs as [|var vs IH]; simpl; intros d d' Hnd H.
  - now inversion H; subst.
  - destruct (materialize (var_value var)) as [vals|e]; simpl in H; [|discriminate].
    eapply IH; [|exact H]. now apply NoDup_keys_dict_set.
Qed.

Lemma init_variables_inv cs vs pm :
  init cs vs = Ok pm ->
  init_variables [] vs = Ok (_variables pm) /\
  _constants pm = init_constants cs /\
  _variable_formats pm = init_formats vs.
Proof.
  unfold init. destruct (init_variables [] vs) as [d|e]; simpl; [|discriminate].
  intros H. inversion H; subst. simpl. repeat split.
Qed.

Lemma init_NoDup cs vs pm :
  init cs vs = Ok pm -> NoDup (keys (_variables pm)).
Proof.
  intros H. apply init_variables_inv in H as (H & _ & _).
  eapply init_variables_NoDup; [|exact H]. constructor.
Qed.

Lemma length_product {A : Type} (ls : list (list A)) :
  List.length (product ls) = prod (map (@List.length A) ls).
Proof.
  induction ls as [|l ls IH]; simpl; [reflexivity|].
  rewrite <- IH. generalize (product ls) as P. intros P.
  induction l as [|x l IHl]; simpl; [reflexivity|].
  now rewrite length_app, length_map, IHl.
Qed.

(** The value lists read by [generate_variables] are the dictionary's values. *)
Lemma var_values_eq (d : dict (list float)) :
  NoDup (keys d) ->
  map (fun name => match dict_get d name with Some vals => vals | None => [] end)
      (keys d) = values d.
Proof. apply lookup_keys_values. Qed.

Lemma length_generate_variables pm :
  NoDup (keys (_variables pm)) ->
  List.length (generate_variables pm) = prod (shape_variables pm).
Proof.
  intros Hnd. unfold generate_variables, shape_variables.
  destruct (_variables pm) as [|p d] eqn:E; [reflexivity|].
  rewrite length_map, length_product, var_values_eq by assumption.
  reflexivity.
Qed.

(** C1. Whenever [ParamsManager(constants, variables)] is built, the number of
    points that [generate_variables] yields is the product of
    [shape_variables]; with no variable declared it yields exactly one point,
    the constants mapping itself. *)
Theorem generate_variables_count cs vs pm :
  init cs vs = Ok pm ->
  List.length (generate_variables pm) = prod (shape_variables pm) /\
  (vs = [] -> generate_variables pm = [_constants pm] /\
              _constants pm = init_constants cs).
Proof.
  intros H. split.
  - apply length_generate_variables. eapply init_NoDup, H.
  - intros ->. unfold init in H. simpl in H. inversion H; subst. simpl.
    split; reflexivity.
Qed.

Lemma init_sweep : init sweep_constants sweep_variables = Ok sweep_manager.
Proof. vm_compute. reflexivity. Qed.

Lemma generate_variables_count_witness :
  List.length (generate_variables sweep_manager) = prod (shape_variables sweep_manager) /\
  (sweep_variables = [] ->
   generate_variables sweep_manager = [_constants sweep_manager] /\
   _constants sweep_manager = init_constants sweep_constants).
Proof.
  exact (generate_variables_count sweep_constants sweep_variables
           sweep_manager init_sweep).
Defined.

(** ** Iteration order and reshaping *)

Lemma nth_error_product_block {A : Type} (P : list (list A)) (c : list A) j :
  nth_error P j = Some c ->
  forall (l : list A) i x,
    nth_error l i = Some x ->
    nth_error (flat_map (fun y => map (cons y) P) l) (i * List.length P + j)
    = Some (x :: c).
Proof.
  intros Hj. assert (Hlt : j < List.length P) by (apply nth_error_Some; congruence).
  induction l as [|y l IH]; intros [|i] x Hi; simpl in *; try discriminate.
  - inversion Hi; subst.
    rewrite nth_error_app1 by (rewrite length_map; exact Hlt).
    now rewrite nth_error_map, Hj.
  - rewrite nth_error_app2 by (rewrite length_map; lia).
    rewrite length_map.
    replace (List.length P + i * List.length P + j - List.length P)
      with (i * List.length P + j) by lia.
    now apply IH.
Qed.

(** The combination found at the row-major offset of a multi-index takes,
    from every list, the element that the index selects. *)
Lemma nth_error_product {A : Type} (ls : list (list A)) : forall index,
  in_bounds index (map (@List.length A) ls) = true ->
  exists comb,
    nth_error (product ls) (ravel index (map (@List.length A) ls)) = Some comb /\
    List.length comb = List.length ls /\
    forall k vals i, nth_error ls k = Some vals -> nth_error index k = Some i ->
                     nth_error comb k = nth_error vals i.
Proof.
  induction ls as [|l ls IH]; intros [|i index] Hb; simpl in Hb; try discriminate.
  - exists []. repeat split. intros [|k] ? ? Hk; discriminate.
  - apply andb_prop in Hb as [Hi Hb]. apply Nat.ltb_lt in Hi.
    destruct (IH index Hb) as (comb & Hn & Hlen & Hsel).
    destruct (nth_error l i) as [x|] eqn:Hx;
      [|apply nth_error_None in Hx; lia].
    exists (x :: comb). simpl. rewrite <- length_product. split; [|split].
    + now apply nth_error_product_block.
    + now rewrite Hlen.
    + intros [|k] vals i' Hk Hi'; simpl in *.
      * inversion Hk; inversion Hi'; subst. now rewrite Hx.
      * now apply Hsel.
Qed.

Lemma dict_set_not_nil {V : Type} (d : dict V) k v : dict_set d k v <> [].
Proof. destruct d as [|[k' v'] d]; simpl; [|destruct (String.eqb k k')]; discriminate. Qed.

Lemma init_variables_not_nil vs : forall d d',
  init_variables d vs = Ok d' -> d <> [] \/ vs <> [] -> d' <> [].
Proof.
  induction vs as [|var vs IH]; simpl; intros d d' H Hne.
  - inversion H; subst. destruct Hne as [Hne|Hne]; [exact Hne|congruence].
  - destruct (materialize (var_value var)) as [vals|e]; simpl in H; [|discriminate].
    eapply IH; [exact H|]. left. apply dict_set_not_nil.
Qed.

Lemma length_in_product {A : Type} (ls : list (list A)) : forall comb,
  In comb (product ls) -> List.length comb = List.length ls.
Proof.
  induction ls as [|l ls IH]; simpl; intros comb Hin.
  - destruct Hin as [<-|[]]. reflexivity.
  - apply in_flat_map in Hin as (x & _ & Hin).
    apply in_map_iff in Hin as (c & <- & Hc). simpl. f_equal. now apply IH.
Qed.

Lemma map_fst_combine {A B : Type} (l : list A) : forall (l' : list B),
  List.length l' = List.length l -> map fst (combine l l') = l.
Proof.
  induction l as [|a l IH]; intros [|b l'] Hlen; simpl in *; try discriminate;
    [reflexivity|]. f_equal. apply IH. lia.
Qed.

Lemma nth_error_combine {A B : Type} (l : list A) : forall (l' : list B) k a b,
  nth_error l k = Some a -> nth_error l' k = Some b ->
  nth_error (combine l l') k = Some (a, b).
Proof.
  induction l as [|x l IH]; intros [|y l'] [|k] a b Ha Hb; simpl in *;
    try discriminate.
  - now inversion Ha; inversion Hb; subst.
  - now apply IH.
Qed.

Lemma generate_variables_cons pm :
  _variables pm <> [] -> NoDup (keys (_variables pm)) ->
  generate_variables pm =
  map (fun combination => combine (keys (_variables pm)) combination)
      (product (values (_variables pm))).
Proof.
  intros Hne Hnd. unfold generate_variables.
  destruct (_variables pm) as [|p d] eqn:E; [congruence|].
  rewrite var_values_eq by assumption.
  apply map_ext_in. intros comb Hin. apply dict_of_pairs_nodup.
  apply length_in_product in Hin.
  rewrite map_fst_combine; [assumption|].
  rewrite Hin. unfold keys, values. now rewrite !length_map.
Qed.

(** Every generated point of a sweep with variables binds exactly the
    variables, in the order of the manager's mapping. *)
Lemma generate_variables_keys cs vs pm point :
  init cs vs = Ok pm -> vs <> [] -> In point (generate_variables pm) ->
  keys point = keys (_variables pm).
Proof.
  intros Hinit Hvs Hin.
  pose proof (init_NoDup _ _ _ Hinit) as Hnd.
  assert (Hne : _variables pm <> []).
  { apply init_variables_inv in Hinit as (H & _ & _).
    eapply init_variables_not_nil; [exact H|now right]. }
  rewrite generate_variables_cons in Hin by assumption.
  apply in_map_iff in Hin as (comb & <- & Hc).
  apply length_in_product in Hc. unfold keys at 1.
  apply map_fst_combine. rewrite Hc. unfold keys, values. now rewrite !length_map.
Qed.

(** C2. [generate_variables] advances the last variable fastest: when the
    values computed for the points, in iteration order, are reshaped to
    [shape_variables] (as [run] does with the ground-state buffers), the
    entry at a multi-index is the value computed for the point whose k-th
    variable holds the value that the k-th index selects. *)
Theorem generate_variables_reshape_roundtrip
  (A : Type) (f : dict float -> A) cs vs pm index :
  init cs vs = Ok pm ->
  vs <> [] ->
  in_bounds index (shape_variables pm) = true ->
  exists arr point,
    reshape (map f (generate_variables pm)) (shape_variables pm) = Ok arr /\
    nd_get arr index = Some (f point) /\
    nth_error (generate_variables pm) (ravel index (shape_variables pm))
    = Some point /\
    keys point = keys (_variables pm) /\
    forall k name vals i,
      nth_error (_variables pm) k = Some (name, vals) ->
      nth_error index k = Some i ->
      dict_get point name = nth_error vals i.
Proof.
  intros Hinit Hvs Hb.
  pose proof (init_NoDup _ _ _ Hinit) as Hnd.
  assert (Hne : _variables pm <> []).
  { apply init_variables_inv in Hinit as (H & _ & _).
    eapply init_variables_not_nil; [exact H|now right]. }
  unfold shape_variables in *.
  destruct (nth_error_product _ _ Hb) as (comb & Hn & Hlen & Hsel).
  set (point := combine (keys (_variables pm)) comb).
  assert (Hgen : nth_error (generate_variables pm)
                   (ravel index (map (@List.length float) (values (_variables pm))))
                 = Some point).
  { rewrite generate_variables_cons by assumption.
    now rewrite nth_error_map, Hn. }
  assert (Hkeys : keys point = keys (_variables pm)).
  { eapply generate_variables_keys; try eassumption. eapply nth_error_In, Hgen. }
  exists (mkNdarray (map (@List.length float) (values (_variables pm)))
                    (map f (generate_variables pm))), point.
  split; [|split; [|split; [|split]]].
  - unfold reshape. rewrite length_map.
    pose proof (length_generate_variables pm Hnd) as Hc.
    unfold shape_variables in Hc. rewrite Hc, Nat.eqb_refl. reflexivity.
  - unfold nd_get. simpl. rewrite Hb, nth_error_map, Hgen. reflexivity.
  - exact Hgen.
  - exact Hkeys.
  - intros k name vals i Hk Hi.
    assert (Hvals : nth_error (values (_variables pm)) k = Some vals).
    { unfold values. now rewrite nth_error_map, Hk. }
    rewrite <- (Hsel _ _ _ Hvals Hi).
    assert (Hname : nth_error (keys (_variables pm)) k = Some name).
    { unfold keys. now rewrite nth_error_map, Hk. }
    destruct (nth_error comb k) as [x|] eqn:Hx.
    + apply dict_get_nth with (n := k).
      * now rewrite Hkeys.
      * now apply nth_error_combine.
    + exfalso. apply nth_error_None in Hx.
      assert (k < List.length (values (_variables pm)))
        by (apply nth_error_Some; congruence). lia.
Qed.

Lemma generate_variables_reshape_roundtrip_witness :
  exists arr point,
    reshape (map (fun p => p) (generate_variables sweep_manager))
            (shape_variables sweep_manager) = Ok arr /\
    nd_get arr [1; 2] = Some point /\
    nth_error (generate_variables sweep_manager)
              (ravel [1; 2] (shape_variables sweep_manager)) = Some point /\
    keys point = keys (_variables sweep_manager) /\
    forall k name vals i,
      nth_error (_variables sweep_manager) k = Some (name, vals) ->
      nth_error [1; 2] k = Some i ->
      dict_get point name = nth_error vals i.
Proof.
  apply (@generate_variables_reshape_roundtrip _ (fun p => p)
           sweep_constants sweep_variables sweep_manager [1; 2] init_sweep).
  - discriminate.
  - reflexivity.
Defined.

(** At index [(1, 2)] of the running example sits the point [V = 0.5],
    [W = 1.2000000000000002], the sixth of the eight points. *)
Example sweep_point_1_2 :
  nth_error (generate_variables sweep_manager) (ravel [1; 2] [2; 4])
  = Some [("V", 0.5%float); ("W", 1.2000000000000002%float)].
Proof. vm_compute. reflexivity. Qed.

(** ** Name collisions at construction *)

Lemma arange_length_errors a b c e :
  arange_length a b c = Err e -> e = ZeroDivisionError \/ e = ValueError.
Proof.
  unfold arange_length.
  destruct (c =? 0)%float; [intros H; inversion H; tauto|].
  destruct (ceil_float ((b - a) / c)) as [ceiling|];
    [|intros H; inversion H; tauto].
  destruct (negb _); [intros H; inversion H; tauto|].
  destruct (max_elements <? _)%Z; intros H; inversion H; tauto.
Qed.

Lemma materialize_errors v e :
  materialize v = Err e -> e = ZeroDivisionError \/ e = ValueError.
Proof.
  destruct v as [l|a]; simpl; [discriminate|]. unfold arange.
  destruct (arange_length (start a) (end_ a) (step a)) eqn:E; simpl; [discriminate|].
  intros H; inversion H; subst. eapply arange_length_errors, E.
Qed.

Lemma init_variables_errors vs : forall d e,
  init_variables d vs = Err e -> e = ZeroDivisionError \/ e = ValueError.
Proof.
  induction vs as [|var vs IH]; simpl; intros d e H; [discriminate|].
  destruct (materialize (var_value var)) as [vals|e'] eqn:E; simpl in H.
  - eapply IH, H.
  - inversion H; subst. eapply materialize_errors, E.
Qed.

(** The second loop returns when every range is accepted, and only then. *)
Lemma init_variables_accepted vs : forall d,
  (exists d', init_variables d vs = Ok d') <->
  (forall var, In var vs -> exists vals, materialize (var_value var) = Ok vals).
Proof.
  induction vs as [|var vs IH]; simpl; intros d.
  - split; [intros _ var []|intros _; now exists d].
  - destruct (materialize (var_value var)) as [vals|e] eqn:E; simpl.
    + rewrite IH. split.
      * intros H v' [<-|Hin]; [now exists vals|now apply H].
      * intros H v' Hin. apply H. now right.
    + split; [intros [d' H]; discriminate|].
      intros H. destruct (H var (or_introl eq_refl)) as [vals Hv]. congruence.
Qed.

Lemma in_keys_dict_set_iff {V : Type} (d : dict V) k k' v :
  In k' (keys (dict_set d k v)) <-> In k' (keys d) \/ k' = k.
Proof.
  destruct (in_keys_dec k (keys d)) as [Hin|Hnin].
  - rewrite keys_dict_set_in by assumption.
    split; [now left|intros [H| ->]; assumption].
  - rewrite keys_dict_set_notin by assumption. rewrite in_app_iff. simpl.
    split; [intros [H|[<-|[]]]; auto|intros [H| ->]; auto].
Qed.

(** A loop of assignments [d[key x] = value x] over a list. *)
Section Assignments.
Context {X V : Type} (key : X -> string) (value : X -> V).

Lemma NoDup_keys_assignments (xs : list X) : forall d : dict V,
  NoDup (keys d) ->
  NoDup (keys (fold_left (fun d x => dict_set d (key x) (value x)) xs d)).
Proof.
  induction xs as [|x xs IH]; simpl; intros d Hnd; [exact Hnd|].
  apply IH. now apply NoDup_keys_dict_set.
Qed.

Lemma in_keys_assignments (xs : list X) : forall (d : dict V) k,
  In k (keys (fold_left (fun d x => dict_set d (key x) (value x)) xs d)) <->
  In k (keys d) \/ In k (map key xs).
Proof.
  induction xs as [|x xs IH]; simpl; intros d k; [tauto|].
  rewrite IH, in_keys_dict_set_iff. intuition congruence.
Qed.

Lemma dict_get_assignments_keeps (xs : list X) : forall (d : dict V) k v,
  (forall x, In x xs -> key x <> k) ->
  dict_get d k = Some v ->
  dict_get (fold_left (fun d x => dict_set d (key x) (value x)) xs d) k = Some v.
Proof.
  induction xs as [|x xs IH]; simpl; intros d k v Hne Hd; [exact Hd|].
  apply IH; [intros x' Hin; apply Hne; now right|].
  rewrite dict_get_set_other; [exact Hd|].
  intros Heq. apply (Hne x (or_introl eq_refl)). now symmetry.
Qed.

(** The last assignment to a key decides its value. *)
Lemma dict_get_assignments_last (xs1 : list X) x (xs2 : list X) (d : dict V) :
  (forall x', In x' xs2 -> key x' <> key x) ->
  dict_get (fold_left (fun d x => dict_set d (key x) (value x))
                      (xs1 ++ x :: xs2) d) (key x)
  = Some (value x).
Proof.
  intros Hne. rewrite fold_left_app. simpl.
  apply dict_get_assignments_keeps; [exact Hne|apply dict_get_set_same].
Qed.

End Assignments.

Lemma init_formats_assignments vs :
  init_formats vs
  = fold_left (fun d var => dict_set d (var_name var) (var_format var)) vs [].
Proof.
  unfold init_formats, dict_of_pairs. generalize (@nil (string * option string)).
  induction vs as [|var vs IH]; simpl; intros d; [reflexivity|apply IH].
Qed.

Lemma in_keys_init_variables vs : forall d d' k,
  init_variables d vs = Ok d' ->
  In k (keys d') <-> In k (keys d) \/ In k (map var_name vs).
Proof.
  induction vs as [|var vs IH]; simpl; intros d d' k H.
  - inversion H; subst. tauto.
  - destruct (materialize (var_value var)) as [vals|e]; simpl in H; [|discriminate].
    rewrite (IH _ _ k H), in_keys_dict_set_iff. intuition congruence.
Qed.

Lemma init_variables_keeps vs2 : forall d d' k vals,
  (forall v', In v' vs2 -> var_name v' <> k) ->
  dict_get d k = Some vals ->
  init_variables d vs2 = Ok d' ->
  dict_get d' k = Some vals.
Proof.
  induction vs2 as [|var vs2 IH]; simpl; intros d d' k vals Hne Hd H.
  - now inversion H; subst.
  - destruct (materialize (var_value var)) as [l|e]; simpl in H; [|discriminate].
    eapply IH; [intros v' Hin; apply Hne; now right| |exact H].
    rewrite dict_get_set_other; [exact Hd|].
    intros Heq. apply (Hne var (or_introl eq_refl)). now symmetry.
Qed.

Lemma init_variables_last_wins vs1 : forall var vs2 d d' vals,
  (forall v', In v' vs2 -> var_name v' <> var_name var) ->
  materialize (var_value var) = Ok vals ->
  init_variables d (vs1 ++ var :: vs2) = Ok d' ->
  dict_get d' (var_name var) = Some vals.
Proof.
  induction vs1 as [|v1 vs1 IH]; simpl; intros var vs2 d d' vals Hne Hm H.
  - rewrite Hm in H. simpl in H.
    eapply init_variables_keeps; [exact Hne| |exact H].
    apply dict_get_set_same.
  - destruct (materialize (var_value v1)) as [l|e]; simpl in H; [|discriminate].
    eapply IH; eassumption.
Qed.

(** C3, as the code has it. [ParamsManager.__init__] has no check on names
    and never raises [ConfigError]: it returns exactly when [np.arange]
    accepts every range, whatever the names.  The manager that it returns
    holds each declared name once in the mapping of its kind (constants,
    value lists, formats) and no other name, and a name that is declared
    again has overwritten the earlier declaration: each mapping gives, for a
    name, what the last declaration of this name says. *)
Theorem init_collisions_overwrite cs vs :
  init cs vs <> Err ConfigError /\
  ((exists pm, init cs vs = Ok pm) <->
   (forall var, In var vs ->
                exists vals, materialize (var_value var) = Ok vals)) /\
  forall pm, init cs vs = Ok pm ->
    (NoDup (keys (_constants pm)) /\
     NoDup (keys (_variables pm)) /\
     NoDup (keys (_variable_formats pm))) /\
    (forall k,
        (In k (keys (_constants pm)) <-> In k (map const_name cs)) /\
        (In k (keys (_variables pm)) <-> In k (map var_name vs)) /\
        (In k (keys (_variable_formats pm)) <-> In k (map var_name vs))) /\
    (forall cs1 c cs2,
        cs = cs1 ++ c :: cs2 ->
        (forall c', In c' cs2 -> const_name c' <> const_name c) ->
        dict_get (_constants pm) (const_name c) = Some (const_value c)) /\
    (forall vs1 var vs2,
        vs = vs1 ++ var :: vs2 ->
        (forall v', In v' vs2 -> var_name v' <> var_name var) ->
        (exists vals, materialize (var_value var) = Ok vals /\
                      dict_get (_variables pm) (var_name var) = Some vals) /\
        dict_get (_variable_formats pm) (var_name var) = Some (var_format var)).
Proof.
  split; [|split].
  - unfold init. destruct (init_variables [] vs) as [d|e] eqn:E; simpl;
      [discriminate|].
    intros H; inversion H; subst.
    apply init_variables_errors in E. destruct E as [E|E]; discriminate.
  - rewrite <- (init_variables_accepted vs []). unfold init.
    destruct (init_variables [] vs) as [d|e]; simpl.
    + split; eauto.
    + split; intros [x H]; discriminate.
  - intros pm H. pose proof (init_NoDup _ _ _ H) as Hnd.
    apply init_variables_inv in H as (Hv & Hc & Hf).
    rewrite Hc, Hf, init_formats_assignments. unfold init_constants.
    split; [|split; [|split]].
    + repeat split; [|exact Hnd|]; apply NoDup_keys_assignments; constructor.
    + intros k. rewrite !in_keys_assignments, (in_keys_init_variables _ _ _ k Hv).
      simpl. tauto.
    + intros cs1 c cs2 -> Hne. now apply dict_get_assignments_last.
    + intros vs1 var vs2 -> Hne. split.
      * assert (Hin : In var (vs1 ++ var :: vs2))
          by (apply in_or_app; right; now left).
        destruct (proj1 (init_variables_accepted _ []) (ex_intro _ _ Hv) var Hin)
          as [vals Hm].
        exists vals. split; [exact Hm|].
        eapply init_variables_last_wins; eassumption.
      * now apply dict_get_assignments_last.
Qed.

(** A constant and two variables that share one name: construction returns,
    and the later variable has replaced the earlier one. *)
Lemma init_name_collision_succeeds :
  init [mkConstant "a" 1%float; mkConstant "b" 2%float; mkConstant "a" 3%float]
       [mkVariable "a" (ValueList [4]%float) None;
        mkVariable "a" (ValueList [5; 6]%float) None]
  = Ok (mkParamsManager [("a", 3%float); ("b", 2%float)]
                        [("a", [5; 6]%float)]
                        [("a", None)]).
Proof. vm_compute. reflexivity. Qed.

(** ** Identifiers of sweep points *)

Lemma keys_init_variables vs : forall d d',
  init_variables d vs = Ok d' ->
  NoDup (keys d ++ map var_name vs) ->
  keys d' = keys d ++ map var_name vs.
Proof.
  induction vs as [|var vs IH]; simpl; intros d d' H Hnd.
  - inversion H; subst. now rewrite app_nil_r.
  - destruct (materialize (var_value var)) as [vals|e]; simpl in H; [|discriminate].
    assert (Hnotin : ~ In (var_name var) (keys d)).
    { apply NoDup_remove_2 in Hnd. intros Hin. apply Hnd, in_or_app. now left. }
    rewrite (IH _ _ H); rewrite keys_dict_set_notin by assumption.
    + now rewrite <- app_assoc.
    + now rewrite <- app_assoc.
Qed.

Lemma in_keys_dict_set {V : Type} (d : dict V) k k' v :
  In k' (keys d) \/ k' = k -> In k' (keys (dict_set d k v)).
Proof.
  destruct (in_keys_dec k (keys d)) as [Hin|Hnin].
  - rewrite keys_dict_set_in by assumption. intros [H| ->]; assumption.
  - rewrite keys_dict_set_notin by assumption. intros [H| ->];
      apply in_or_app; [now left|right; now left].
Qed.

Lemma init_variables_has_key vs : forall d d' k,
  init_variables d vs = Ok d' ->
  In k (keys d) \/ In k (map var_name vs) -> In k (keys d').
Proof.
  induction vs as [|var vs IH]; simpl; intros d d' k H Hin.
  - inversion H; subst. tauto.
  - destruct (materialize (var_value var)) as [vals|e]; simpl in H; [|discriminate].
    eapply IH; [exact H|].
    destruct Hin as [Hin|[Hin|Hin]].
    + left. apply in_keys_dict_set. now left.
    + left. apply in_keys_dict_set. now right.
    + now right.
Qed.

Lemma dict_get_fold_other {V : Type} (ps : list (string * V)) : forall d k,
  ~ In k (map fst ps) ->
  dict_get (fold_left (fun d p => dict_set d (fst p) (snd p)) ps d) k
  = dict_get d k.
Proof.
  induction ps as [|[k0 v0] ps IH]; simpl; intros d k Hnin; [reflexivity|].
  rewrite IH by tauto. apply dict_get_set_other. intros ->. tauto.
Qed.

(** A dictionary built from pairs holds, for every key, one of the values
    that the pairs give to this key. *)
Lemma dict_get_fold_in {V : Type} (ps : list (string * V)) : forall d k,
  In k (map fst ps) ->
  exists v, In (k, v) ps /\
    dict_get (fold_left (fun d p => dict_set d (fst p) (snd p)) ps d) k = Some v.
Proof.
  induction ps as [|[k0 v0] ps IH]; simpl; intros d k Hin; [contradiction|].
  destruct (in_keys_dec k (map fst ps)) as [Hlater|Hlast].
  - destruct (IH (dict_set d k0 v0) k Hlater) as (v & Hv & Hg). eauto.
  - destruct Hin as [->|Hin]; [|contradiction].
    exists v0. split; [now left|].
    rewrite dict_get_fold_other by assumption. apply dict_get_set_same.
Qed.

Section Identifiers.
Variable F : Formatter.

Local Abbreviation segment_of := (segment_of F).

Lemma str_format_from_brace_free s : forall out st v,
  brace_free s = true ->
  str_format_from F Literal out st s v = Ok (out ++ s)%string.
Proof.
  induction s as [|c s IH]; simpl; intros out st v Hb.
  - f_equal. clear. induction out as [|a out IH]; simpl; [reflexivity|now f_equal].
  - apply andb_prop in Hb as [Hb Hs]. apply andb_prop in Hb as [Ho Hc].
    apply negb_true_iff in Ho, Hc. rewrite Ho, Hc, IH by assumption.
    f_equal. unfold snoc. clear.
    induction out as [|a out IH]; simpl; [reflexivity|now f_equal].
Qed.

(** A format string without braces is returned as it is, whatever the
    value: in particular a printf-style template such as [%.1f]. *)
Lemma str_format_brace_free s v :
  brace_free s = true -> str_format F s v = Ok s.
Proof. intros Hb. unfold str_format. now rewrite str_format_from_brace_free. Qed.

Lemma dir_name_segments_Ok formats (items : dict float) : forall segs,
  dir_name_segments F formats items = Ok segs ->
  Forall2 (fun kv seg =>
             exists format_str text,
               dict_get formats (fst kv) = Some (Some format_str) /\
               str_format F format_str (snd kv) = Ok text /\
               seg = (fst kv ++ "(" ++ text ++ ")")%string) items segs.
Proof.
  induction items as [|[k v] items IH]; simpl; intros segs H.
  - inversion H; subst. constructor.
  - destruct (dict_get formats k) as [[format_str|]|] eqn:Hf; try discriminate.
    destruct (str_format F format_str v) as [text|e] eqn:Ht; simpl in H;
      [|discriminate].
    destruct (dir_name_segments F formats items) as [rest|e] eqn:Hr; simpl in H;
      [|discriminate].
    inversion H; subst. constructor; [|now apply IH].
    exists format_str, text. simpl. auto.
Qed.

Lemma Forall2_keys (formats : dict (option string)) (point items : dict float) :
  forall segs,
  (forall kv, In kv items -> dict_get point (fst kv) = Some (snd kv)) ->
  Forall2 (fun kv seg =>
             exists format_str text,
               dict_get formats (fst kv) = Some (Some format_str) /\
               str_format F format_str (snd kv) = Ok text /\
               seg = (fst kv ++ "(" ++ text ++ ")")%string) items segs ->
  Forall2 (segment_of formats point) (keys items) segs.
Proof.
  induction items as [|kv items IH]; intros segs Hget H; inversion H; subst; simpl.
  - constructor.
  - constructor.
    + destruct H2 as (format_str & text & Hf & Ht & ->).
      exists format_str, (snd kv), text. repeat split; try assumption.
      apply Hget. now left.
    + apply IH; [|assumption]. intros kv' Hin. apply Hget. now right.
Qed.

Lemma dir_name_segments_None formats (items : dict float) k :
  In k (keys items) -> dict_get formats k = Some None ->
  exists e, dir_name_segments F formats items = Err e.
Proof.
  induction items as [|[k0 v0] items IH]; simpl; intros Hin Hf; [contradiction|].
  destruct (dict_get formats k0) as [[format_str|]|] eqn:Hf0; eauto.
  destruct (str_format F format_str v0) as [text|e]; simpl; eauto.
  destruct Hin as [->|Hin]; [congruence|].
  destruct (IH Hin Hf) as [e ->]. simpl. eauto.
Qed.

End Identifiers.

Lemma init_printf : init sweep_constants printf_variables = Ok printf_manager.
Proof. vm_compute. reflexivity. Qed.

Lemma get_dir_name_printf (F : Formatter) v :
  _get_dir_name F printf_manager [("V", v)] = Ok "V(%.1f)".
Proof.
  unfold _get_dir_name. cbn [dir_name_segments].
  change (dict_get (_variable_formats printf_manager) "V")
    with (Some (Some "%.1f")).
  cbv iota beta.
  rewrite str_format_brace_free by reflexivity. reflexivity.
Qed.

(** C4, as the code has it. The identifier of a point of a sweep with
    variables is made of one segment [name(text)] per variable, joined by
    underscores in the order of the manager's variables (the declaration order
    when the names are distinct), where [text] is the variable's format string
    expanded by [str.format] on the value; the constants have no part in it.
    A format string without replacement field is copied as it is: for the
    variable [V] with format [%.1f] and values 0.0 and 0.5 both identifiers
    are [V(%.1f)]. *)
Theorem get_dir_name_segments (F : Formatter) cs vs pm point ident :
  init cs vs = Ok pm ->
  vs <> [] ->
  In point (generate_variables pm) ->
  _get_dir_name F pm point = Ok ident ->
  (exists segs,
      ident = String.concat "_" segs /\
      Forall2 (segment_of F (_variable_formats pm) point)
              (keys (_variables pm)) segs) /\
  (NoDup (map var_name vs) -> keys (_variables pm) = map var_name vs) /\
  (forall constants',
      _get_dir_name F (mkParamsManager constants' (_variables pm)
                                       (_variable_formats pm)) point
      = Ok ident) /\
  map (_get_dir_name F printf_manager) (generate_variables printf_manager)
  = [Ok "V(%.1f)"; Ok "V(%.1f)"].
Proof.
  intros Hinit Hvs Hin Hid.
  assert (Hkeys : keys point = keys (_variables pm))
    by (eapply generate_variables_keys; eassumption).
  split; [|split; [|split]].
  - unfold _get_dir_name in Hid.
    destruct (dir_name_segments F (_variable_formats pm) point) as [segs|e] eqn:Hs;
      simpl in Hid; [|discriminate].
    inversion Hid; subst. exists segs. split; [reflexivity|].
    rewrite <- Hkeys.
    apply Forall2_keys; [|now apply dir_name_segments_Ok].
    intros [k v] Hkv. simpl. apply dict_get_in; [|assumption].
    rewrite Hkeys. eapply init_NoDup, Hinit.
  - intros Hnd. apply init_variables_inv in Hinit as (H & _ & _).
    now rewrite (keys_init_variables _ _ _ H).
  - intros constants'. exact Hid.
  - change (generate_variables printf_manager)
      with [[("V", 0%float)]; [("V", 0.5%float)]].
    cbn [map]. now rewrite !get_dir_name_printf.
Qed.

Lemma init_brace : init sweep_constants brace_variables = Ok brace_manager.
Proof. vm_compute. reflexivity. Qed.

Lemma get_dir_name_segments_witness :
  (exists segs,
      "V(0.5)_W(1.25)" = String.concat "_" segs /\
      Forall2 (segment_of fixed_formatter (_variable_formats brace_manager)
                          [("V", 0.5%float); ("W", 1.25%float)])
              (keys (_variables brace_manager)) segs) /\
  (NoDup (map var_name brace_variables) ->
   keys (_variables brace_manager) = map var_name brace_variables) /\
  (forall constants',
      _get_dir_name fixed_formatter
        (mkParamsManager constants' (_variables brace_manager)
                         (_variable_formats brace_manager))
        [("V", 0.5%float); ("W", 1.25%float)]
      = Ok "V(0.5)_W(1.25)") /\
  map (_get_dir_name fixed_formatter printf_manager)
      (generate_variables printf_manager)
  = [Ok "V(%.1f)"; Ok "V(%.1f)"].
Proof.
  apply (@get_dir_name_segments fixed_formatter sweep_constants brace_variables
           brace_manager [("V", 0.5%float); ("W", 1.25%float)] "V(0.5)_W(1.25)"
           init_brace).
  - discriminate.
  - vm_compute. right. left. reflexivity.
  - vm_compute. reflexivity.
Defined.

(** With the format [%.1f] declared, the identifiers of the two points are
    equal and neither shows the value. *)
Lemma get_dir_name_printf_format :
  init sweep_constants printf_variables = Ok printf_manager /\
  generate_variables printf_manager
  = [[("V", 0%float)]; [("V", 0.5%float)]] /\
  _get_dir_name fixed_formatter printf_manager [("V", 0%float)] = Ok "V(%.1f)" /\
  _get_dir_name fixed_formatter printf_manager [("V", 0.5%float)] = Ok "V(%.1f)".
Proof. vm_compute. repeat split; reflexivity. Qed.

(** With brace templates the identifiers show the values. *)
Example get_dir_name_brace_format :
  map (_get_dir_name fixed_formatter brace_manager) (generate_variables brace_manager)
  = [Ok "V(0.0)_W(1.25)"; Ok "V(0.5)_W(1.25)"].
Proof. vm_compute. reflexivity. Qed.

(** C5. A variable declared without a format has the format [None], and the
    identifier of no point can then be built: [_get_dir_name] raises where the
    specification asks for a default rendering of the value. *)
Theorem get_dir_name_format_None (F : Formatter) cs vs pm point var :
  init cs vs = Ok pm ->
  In point (generate_variables pm) ->
  In var vs ->
  (forall var', In var' vs -> var_name var' = var_name var ->
                var_format var' = None) ->
  exists e, _get_dir_name F pm point = Err e.
Proof.
  intros Hinit Hin Hvar Hnone.
  assert (Hvs : vs <> []) by (intros ->; contradiction).
  pose proof (init_variables_inv _ _ _ Hinit) as (Hv & _ & Hf).
  assert (Hkey : In (var_name var) (keys point)).
  { erewrite generate_variables_keys by eassumption.
    eapply init_variables_has_key; [exact Hv|]. right. now apply in_map. }
  assert (Hfmt : dict_get (_variable_formats pm) (var_name var) = Some None).
  { rewrite Hf. unfold init_formats, dict_of_pairs.
    destruct (dict_get_fold_in
                (map (fun var => (var_name var, var_format var)) vs) []
                (var_name var)) as (fmt & Hpair & ->).
    - rewrite map_map. simpl. now apply in_map.
    - apply in_map_iff in Hpair as (var' & Heq & Hin').
      inversion Heq; subst. f_equal. now apply Hnone. }
  destruct (dir_name_segments_None F _ _ _ Hkey Hfmt) as [e He].
  exists e. unfold _get_dir_name. now rewrite He.
Qed.

Lemma init_bare : init [] bare_variables = Ok bare_manager.
Proof. vm_compute. reflexivity. Qed.

Lemma get_dir_name_format_None_witness :
  exists e, _get_dir_name fixed_formatter bare_manager [("V", 0%float)] = Err e.
Proof.
  apply (@get_dir_name_format_None fixed_formatter [] bare_variables bare_manager
           [("V", 0%float)] (mkVariable "V" (ValueList [0; 0.5]%float) None)
           init_bare).
  - vm_compute. left. reflexivity.
  - left. reflexivity.
  - intros var' [<-|[]] _. reflexivity.
Defined.

(** The exception is the [AttributeError] of [None.format]. *)
Example get_dir_name_bare :
  map (_get_dir_name fixed_formatter bare_manager) (generate_variables bare_manager)
  = [Err AttributeError; Err AttributeError].
Proof. vm_compute. reflexivity. Qed.

(** ** Range materialization *)

Example arange_1_13_01 :
  arange 1 1.3 0.1 = Ok [1; 1.1; 1.2000000000000002; 1.3000000000000003]%float.
Proof. vm_compute. reflexivity. Qed.







(** At the edges of the length rule: a quotient whose ceiling is [2^63]
    gives no value, and every other range of [2^60] values or more is
    refused, as is a quotient that is infinite or not a number. *)
Example arange_edges :
  arange 0 9223372036854775808 1 = Ok [] /\
  arange 0 1152921504606846976 1 = Err ValueError /\
  arange 0 infinity 1 = Err ValueError /\
  arange 0 nan 1 = Err ValueError /\
  arange 1 0 1 = Ok [] /\
  arange 0 1 0 = Err ZeroDivisionError.
Proof. vm_compute. repeat split; reflexivity. Qed.


(** ** The report parser *)

Lemma row_get_columns (row : list string) :
  row_get (dict_row _FIELD_NAMES row) "Y (ang)" = Ok (nth_error row 0) /\
  row_get (dict_row _FIELD_NAMES row) "Ec (eV)" = Ok (nth_error row 1) /\
  row_get (dict_row _FIELD_NAMES row) "Ev (eV)" = Ok (nth_error row 2) /\
  row_get (dict_row _FIELD_NAMES row) "E (V/cm)" = Ok (nth_error row 3) /\
  row_get (dict_row _FIELD_NAMES row) "Ef (eV)" = Ok (nth_error row 4) /\
  row_get (dict_row _FIELD_NAMES row) "n (cm-3)" = Ok (nth_error row 5) /\
  row_get (dict_row _FIELD_NAMES row) "p (cm-3)" = Ok (nth_error row 6) /\
  row_get (dict_row _FIELD_NAMES row) "el eval 1 (eV)" = Ok (nth_error row 8).
Proof.
  do 9 (destruct row as [|? row]; [repeat split; reflexivity|]).
  repeat split; reflexivity.
Qed.

Section ParserFacts.
Variable float_of_string : string -> option float.

Local Arguments dict_row names row : simpl never.

Local Abbreviation parse_row := (parse_row float_of_string).
Local Abbreviation parse_rows := (parse_rows float_of_string).
Local Abbreviation float_cell := (float_cell float_of_string).
Local Abbreviation dr := (dict_row _FIELD_NAMES).
Local Abbreviation number_at := (number_at float_of_string).

Lemma number_at_cell_value column row x :
  number_at column row = Some x <-> cell_value float_of_string column row x.
Proof.
  unfold number_at, cell_value. split.
  - destruct (nth_error row column) as [cell|]; [|discriminate]. eauto.
  - intros (cell & -> & H). exact H.
Qed.

Lemma float_cell_number name column row :
  row_get (dr row) name = Ok (nth_error row column) ->
  float_cell (dr row) name
  = match number_at column row with
    | Some x => Ok x
    | None => match nth_error row column with
              | Some _ => Err ValueError
              | None => Err TypeError
              end
    end.
Proof.
  intros H. unfold float_cell, number_at. rewrite H. simpl.
  destruct (nth_error row column) as [cell|]; simpl; [|reflexivity].
  now destruct (float_of_string cell).
Qed.

(** What one round of the loop does to the state when it does not raise. *)
Lemma parse_row_Ok d row d' :
  parse_row d (dr row) = Ok d' ->
  exists y ec ev e ef n p,
    number_at 0 row = Some y /\ number_at 1 row = Some ec /\
    number_at 2 row = Some ev /\ number_at 3 row = Some e /\
    number_at 4 row = Some ef /\ number_at 5 row = Some n /\
    number_at 6 row = Some p /\
    z d' = z d ++ [(y / 10)%float] /\
    energy_conduction d' = energy_conduction d ++ [ec] /\
    energy_valence d' = energy_valence d ++ [ev] /\
    electric_field d' = electric_field d ++ [e] /\
    energy_fermi d' = energy_fermi d ++ [ef] /\
    density_electron d' = density_electron d ++ [n] /\
    density_hole d' = density_hole d ++ [p] /\
    match nth_error row 8, energy_ground_state d with
    | Some cell, None =>
        exists energy, float_of_string cell = Some energy /\
                       energy_ground_state d' = Some energy /\
                       position_ground_state d' = Some (y / 10)%float
    | _, _ => energy_ground_state d' = energy_ground_state d /\
              position_ground_state d' = position_ground_state d
    end.
Proof.
  destruct (row_get_columns row) as (H0 & H1 & H2 & H3 & H4 & H5 & H6 & H8).
  unfold parse_row.
  rewrite (float_cell_number _ _ _ H0), (float_cell_number _ _ _ H1),
    (float_cell_number _ _ _ H2), (float_cell_number _ _ _ H3),
    (float_cell_number _ _ _ H4), (float_cell_number _ _ _ H5),
    (float_cell_number _ _ _ H6), H8.
  destruct (number_at 0 row) as [y|]; [|destruct (nth_error row 0); discriminate].
  destruct (number_at 1 row) as [ec|]; [|destruct (nth_error row 1); discriminate].
  destruct (number_at 2 row) as [ev|]; [|destruct (nth_error row 2); discriminate].
  destruct (number_at 3 row) as [e|]; [|destruct (nth_error row 3); discriminate].
  destruct (number_at 4 row) as [ef|]; [|destruct (nth_error row 4); discriminate].
  destruct (number_at 5 row) as [n|]; [|destruct (nth_error row 5); discriminate].
  destruct (number_at 6 row) as [p|]; [|destruct (nth_error row 6); discriminate].
  cbn [bind]. intros H. exists y, ec, ev, e, ef, n, p.
  destruct (nth_error row 8) as [cell|]; [destruct (energy_ground_state d)|].
  - inversion H; subst; cbn. repeat split; reflexivity.
  - cbn [float_ bind] in H.
    destruct (float_of_string cell) as [energy|] eqn:Hcell; simpl in H;
      [|discriminate H].
    inversion H; subst; cbn. repeat split; try reflexivity.
    exists energy. repeat split.
  - inversion H; subst; cbn. repeat split; reflexivity.
Qed.

(** A well-formed row never makes the loop raise. *)
Lemma parse_row_well_formed d row :
  well_formed_row float_of_string row = true ->
  exists d', parse_row d (dr row) = Ok d'.
Proof.
  intros Hwf. unfold well_formed_row in Hwf.
  apply andb_prop in Hwf as [H7 H9]. rewrite forallb_forall in H7.
  assert (Hn : forall k, k < 7 -> exists x, number_at k row = Some x).
  { intros k Hk. unfold number_at.
    assert (Hin : In k (seq 0 7)) by (apply in_seq; lia).
    specialize (H7 k Hin).
    destruct (nth_error row k) as [cell|]; [|discriminate].
    destruct (float_of_string cell); [eauto|discriminate]. }
  destruct (row_get_columns row) as (H0 & H1 & H2 & H3 & H4 & H5 & H6 & H8).
  unfold parse_row.
  rewrite (float_cell_number _ _ _ H0), (float_cell_number _ _ _ H1),
    (float_cell_number _ _ _ H2), (float_cell_number _ _ _ H3),
    (float_cell_number _ _ _ H4), (float_cell_number _ _ _ H5),
    (float_cell_number _ _ _ H6), H8.
  destruct (Hn 0) as [y ->]; [lia|]. destruct (Hn 1) as [ec ->]; [lia|].
  destruct (Hn 2) as [ev ->]; [lia|]. destruct (Hn 3) as [e ->]; [lia|].
  destruct (Hn 4) as [ef ->]; [lia|]. destruct (Hn 5) as [n ->]; [lia|].
  destruct (Hn 6) as [p ->]; [lia|].
  cbn [bind].
  destruct (nth_error row 8) as [c8|]; [|eauto].
  destruct (energy_ground_state d); [eauto|].
  cbn [float_]. destruct (float_of_string c8); [|discriminate].
  cbn [bind]. eauto.
Qed.

Lemma appended_refl {A : Type} (R : list string -> A -> Prop) (l : list A) :
  appended R [] l l.
Proof. exists []. split; [now rewrite app_nil_r|constructor]. Qed.

Lemma appended_step {A : Type} (R : list string -> A -> Prop)
      row rows (old mid new : list A) x :
  mid = old ++ [x] -> R row x -> appended R rows mid new ->
  appended R (row :: rows) old new.
Proof.
  intros -> HR (xs & -> & HF). exists (x :: xs). split.
  - now rewrite <- app_assoc.
  - now constructor.
Qed.

(** The seven series grow by one value per row, each from its own column. *)
Lemma parse_rows_series rows : forall d0 d,
  parse_rows d0 (map dr rows) = Ok d ->
  appended (position_value float_of_string) rows (z d0) (z d) /\
  appended (cell_value float_of_string 1) rows
           (energy_conduction d0) (energy_conduction d) /\
  appended (cell_value float_of_string 2) rows
           (energy_valence d0) (energy_valence d) /\
  appended (cell_value float_of_string 3) rows
           (electric_field d0) (electric_field d) /\
  appended (cell_value float_of_string 4) rows
           (energy_fermi d0) (energy_fermi d) /\
  appended (cell_value float_of_string 5) rows
           (density_electron d0) (density_electron d) /\
  appended (cell_value float_of_string 6) rows
           (density_hole d0) (density_hole d).
Proof.
  induction rows as [|row rows IH]; simpl; intros d0 d H.
  - inversion H; subst. repeat split; apply appended_refl.
  - destruct (parse_row d0 (dr row)) as [d1|err] eqn:E; simpl in H; [|discriminate].
    apply parse_row_Ok in E
      as (y & ec & ev & e & ef & n & p & N0 & N1 & N2 & N3 & N4 & N5 & N6
          & Ez & Eec & Eev & Ee & Eef & En & Ep & _).
    apply IH in H as (Hz & Hec & Hev & He & Hef & Hn & Hp).
    apply number_at_cell_value in N0, N1, N2, N3, N4, N5, N6.
    repeat split; eapply appended_step; try eassumption.
    exists y. now split.
Qed.

Lemma parse_rows_well_formed rows : forall d0,
  forallb (well_formed_row float_of_string) rows = true ->
  exists d, parse_rows d0 (map dr rows) = Ok d.
Proof.
  induction rows as [|row rows IH]; simpl; intros d0 H; [eauto|].
  apply andb_prop in H as [Hrow Hrows].
  destruct (parse_row_well_formed d0 row Hrow) as [d1 ->]. simpl.
  now apply IH.
Qed.

(** Once the ground state is set, the loop leaves it alone. *)
Lemma parse_rows_ground_state_kept rows : forall d0 d energy,
  parse_rows d0 (map dr rows) = Ok d ->
  energy_ground_state d0 = Some energy ->
  energy_ground_state d = energy_ground_state d0 /\
  position_ground_state d = position_ground_state d0.
Proof.
  induction rows as [|row rows IH]; simpl; intros d0 d energy H Hset.
  - inversion H; subst. split; reflexivity.
  - destruct (parse_row d0 (dr row)) as [d1|err] eqn:E; simpl in H; [|discriminate].
    apply parse_row_Ok in E
      as (y & ec & ev & e & ef & n & p & _ & _ & _ & _ & _ & _ & _
          & _ & _ & _ & _ & _ & _ & _ & Hg).
    rewrite Hset in Hg.
    assert (Hkeep : energy_ground_state d1 = Some energy /\
                    position_ground_state d1 = position_ground_state d0)
      by (destruct (nth_error row 8); exact Hg).
    destruct Hkeep as [Hset1 Hp].
    destruct (IH _ _ _ H Hset1) as [He' Hp']. split; congruence.
Qed.

(** Where the ground state comes from: nothing, when no row has a ninth
    cell; otherwise the first row that has one. *)
Lemma parse_rows_ground_state rows : forall d0 d,
  parse_rows d0 (map dr rows) = Ok d ->
  energy_ground_state d0 = None ->
  position_ground_state d0 = None ->
  ((forall row, In row rows -> nth_error row 8 = None) /\
   energy_ground_state d = None /\ position_ground_state d = None) \/
  exists before row after cell energy y,
    rows = before ++ row :: after /\
    (forall r, In r before -> nth_error r 8 = None) /\
    nth_error row 8 = Some cell /\
    float_of_string cell = Some energy /\
    number_at 0 row = Some y /\
    energy_ground_state d = Some energy /\
    position_ground_state d = Some (y / 10)%float.
Proof.
  induction rows as [|row rows IH]; simpl; intros d0 d H He0 Hp0.
  - inversion H; subst. left. repeat split; [intros ? []|assumption..].
  - destruct (parse_row d0 (dr row)) as [d1|err] eqn:E; simpl in H; [|discriminate].
    apply parse_row_Ok in E
      as (y & ec & ev & e & ef & n & p & N0 & _ & _ & _ & _ & _ & _
          & _ & _ & _ & _ & _ & _ & _ & Hg).
    rewrite He0 in Hg. destruct (nth_error row 8) as [cell|] eqn:E8.
    + destruct Hg as (energy & Hf & He1 & Hp1). right.
      destruct (parse_rows_ground_state_kept _ _ _ _ H He1) as [He Hp].
      exists [], row, rows, cell, energy, y.
      repeat split; try assumption; try congruence. intros ? [].
    + destruct Hg as [He1 Hp1].
      destruct (IH _ _ H) as [(Hall & He & Hp)|
                               (before & r & after & cell & energy & y' & -> & Hb & Hr)];
        try congruence.
      * left. repeat split; try assumption.
        intros r [<-|Hin]; [assumption|now apply Hall].
      * right. exists (row :: before), r, after, cell, energy, y'.
        split; [reflexivity|]. split; [|exact Hr].
        intros r' [<-|Hin]; [assumption|now apply Hb].
Qed.

Lemma OutputData_of_rows_data rows :
  OutputData_of_rows float_of_string rows
  = parse_rows OutputData_empty (map dr (data_rows rows)).
Proof.
  unfold OutputData_of_rows, DictReader, data_rows.
  now destruct (filter _ rows).
Qed.

End ParserFacts.

Lemma first_split_unique {A : Type} (P : A -> Prop) (b1 : list A) :
  forall r1 a1 b2 r2 a2,
    b1 ++ r1 :: a1 = b2 ++ r2 :: a2 ->
    (forall x, In x b1 -> ~ P x) -> P r1 ->
    (forall x, In x b2 -> ~ P x) -> P r2 ->
    b1 = b2 /\ r1 = r2 /\ a1 = a2.
Proof.
  induction b1 as [|x b1 IH]; intros r1 a1 [|y b2] r2 a2 Heq H1 P1 H2 P2;
    simpl in Heq; inversion Heq; subst.
  - repeat split.
  - exfalso. apply (H2 y); [now left|assumption].
  - exfalso. apply (H1 r2); [now left|assumption].
  - destruct (IH r1 a1 b2 r2 a2 H3) as (-> & -> & ->); try assumption.
    + intros x' Hin. apply H1. now right.
    + intros x' Hin. apply H2. now right.
    + repeat split.
Qed.

Lemma eigen_cell_Some row cell :
  eigen_cell row = Some cell <-> nth_error row 8 = Some cell /\ cell <> "".
Proof.
  unfold eigen_cell. destruct (nth_error row 8) as [[|c text]|]; split.
  - discriminate.
  - intros [H Hne]. inversion H; subst. now contradiction Hne.
  - intros H. split; [assumption|]. inversion H. discriminate.
  - now intros [H _].
  - discriminate.
  - now intros [H _].
Qed.

Lemma well_formed_not_blank float_of_string data :
  forallb (well_formed_row float_of_string) data = true ->
  filter (fun row => negb (blank row)) data = data.
Proof.
  induction data as [|row data IH]; simpl; [reflexivity|].
  intros H. apply andb_prop in H as [Hrow Hdata].
  destruct row as [|cell row]; [discriminate|]. simpl. f_equal. now apply IH.
Qed.

(** C7. In a file that [OutputData] parses, the ground-state energy and
    position are those of the first data row whose ninth cell holds text:
    the energy is the number in that cell and the position is the row's first
    number divided by ten, whatever the rows after it hold. *)
Theorem ground_state_first_wins
  (float_of_string : string -> option float)
  (rows before : list (list string)) (row : list string)
  (after : list (list string)) (cell : string) (d : OutputData) :
  float_of_string "" = None ->
  OutputData_of_rows float_of_string rows = Ok d ->
  data_rows rows = before ++ row :: after ->
  (forall r, In r before -> eigen_cell r = None) ->
  eigen_cell row = Some cell ->
  exists energy y,
    float_of_string cell = Some energy /\
    cell_value float_of_string 0 row y /\
    energy_ground_state d = Some energy /\
    position_ground_state d = Some (y / 10)%float.
Proof.
  intros Hempty Hparse Hdata Hbefore Hrow.
  rewrite OutputData_of_rows_data, Hdata in Hparse.
  apply eigen_cell_Some in Hrow as [Hcell Hne].
  destruct (parse_rows_ground_state _ _ _ _ Hparse eq_refl eq_refl)
    as [(Hall & _)|(b & r & a & c & energy & y & Hsplit & Hb & Hc & Hf & Hy & He & Hp)].
  - rewrite Hall in Hcell; [discriminate|]. apply in_or_app. right. now left.
  - destruct (first_split_unique (fun r => eigen_cell r <> None)
                before row after b r a Hsplit) as (-> & -> & ->).
    + intros x Hin Hx. apply Hx. now apply Hbefore.
    + unfold eigen_cell. rewrite Hcell. destruct cell; [now contradiction Hne|discriminate].
    + intros x Hin Hx. apply Hx. unfold eigen_cell. now rewrite (Hb x Hin).
    + unfold eigen_cell. rewrite Hc. destruct c; [congruence|discriminate].
    + rewrite Hc in Hcell. inversion Hcell; subst.
      exists energy, y. repeat split; try assumption.
      now apply number_at_cell_value.
Qed.

(** C8. A file made of a header row and [n] well-formed data rows is parsed
    without error: the header is passed over, each of the seven series has
    [n] entries, the entry of a row being the number in the cell of the
    series' column, and every position is the first number of its row
    divided by ten. *)
Theorem OutputData_series
  (float_of_string : string -> option float)
  (header : list string) (data : list (list string)) :
  header <> [] ->
  forallb (well_formed_row float_of_string) data = true ->
  exists d,
    OutputData_of_rows float_of_string (header :: data) = Ok d /\
    Forall2 (position_value float_of_string) data (z d) /\
    Forall2 (cell_value float_of_string 1) data (energy_conduction d) /\
    Forall2 (cell_value float_of_string 2) data (energy_valence d) /\
    Forall2 (cell_value float_of_string 3) data (electric_field d) /\
    Forall2 (cell_value float_of_string 4) data (energy_fermi d) /\
    Forall2 (cell_value float_of_string 5) data (density_electron d) /\
    Forall2 (cell_value float_of_string 6) data (density_hole d) /\
    List.length (z d) = List.length data /\
    List.length (energy_conduction d) = List.length data /\
    List.length (energy_valence d) = List.length data /\
    List.length (electric_field d) = List.length data /\
    List.length (energy_fermi d) = List.length data /\
    List.length (density_electron d) = List.length data /\
    List.length (density_hole d) = List.length data.
Proof.
  intros Hheader Hwf.
  assert (Hrows : data_rows (header :: data) = data).
  { unfold data_rows. destruct header; [congruence|]. simpl.
    now apply well_formed_not_blank with (float_of_string := float_of_string). }
  destruct (parse_rows_well_formed float_of_string data OutputData_empty Hwf)
    as [d Hd].
  exists d. rewrite OutputData_of_rows_data, Hrows. split; [exact Hd|].
  apply parse_rows_series in Hd as (Hz & Hec & Hev & He & Hef & Hn & Hp).
  destruct Hz as (? & -> & ?), Hec as (? & -> & ?), Hev as (? & -> & ?),
    He as (? & -> & ?), Hef as (? & -> & ?), Hn as (? & -> & ?),
    Hp as (? & -> & ?).
  simpl. repeat split; try assumption;
    symmetry; eapply Forall2_length; eassumption.
Qed.

(** C10. In a file that [OutputData] parses, the ground-state energy is
    [None] exactly when the ground-state position is, and an energy that is
    set is the number in the ninth cell of a data row, before which no row
    has a ninth cell, while the position is the first number of that same
    row divided by ten. *)
Theorem ground_state_coherent
  (float_of_string : string -> option float)
  (rows : list (list string)) (d : OutputData) :
  OutputData_of_rows float_of_string rows = Ok d ->
  (energy_ground_state d = None <-> position_ground_state d = None) /\
  forall energy,
    energy_ground_state d = Some energy ->
    exists before row after cell y,
      data_rows rows = before ++ row :: after /\
      (forall r, In r before -> nth_error r 8 = None) /\
      nth_error row 8 = Some cell /\
      float_of_string cell = Some energy /\
      cell_value float_of_string 0 row y /\
      position_ground_state d = Some (y / 10)%float.
Proof.
  intros Hparse. rewrite OutputData_of_rows_data in Hparse.
  destruct (parse_rows_ground_state _ _ _ _ Hparse eq_refl eq_refl)
    as [(Hall & He & Hp)|(b & r & a & c & energy & y & Hsplit & Hb & Hc & Hf & Hy & He & Hp)].
  - rewrite He, Hp. split; [tauto|discriminate].
  - rewrite He, Hp. split; [split; discriminate|].
    intros energy' Heq. inversion Heq; subst.
    exists b, r, a, c, y. repeat split; try assumption.
    now apply number_at_cell_value.
Qed.

Lemma report_rows_parsed :
  OutputData_of_rows short_decimal report_rows = Ok report_parsed.
Proof. vm_compute. reflexivity. Qed.

Lemma ground_state_first_wins_witness :
  exists energy y,
    short_decimal "0.125" = Some energy /\
    cell_value short_decimal 0 report_row2 y /\
    energy_ground_state report_parsed = Some energy /\
    position_ground_state report_parsed = Some (y / 10)%float.
Proof.
  apply (ground_state_first_wins short_decimal report_rows
           [report_row1] report_row2 [report_row3] "0.125" report_parsed).
  - reflexivity.
  - exact report_rows_parsed.
  - reflexivity.
  - intros r [<-|[]]. reflexivity.
  - reflexivity.
Defined.

Lemma OutputData_series_witness :
  exists d,
    OutputData_of_rows short_decimal
      (report_header :: [report_row1; report_row2; report_row3]) = Ok d /\
    Forall2 (position_value short_decimal)
            [report_row1; report_row2; report_row3] (z d) /\
    Forall2 (cell_value short_decimal 1)
            [report_row1; report_row2; report_row3] (energy_conduction d) /\
    Forall2 (cell_value short_decimal 2)
            [report_row1; report_row2; report_row3] (energy_valence d) /\
    Forall2 (cell_value short_decimal 3)
            [report_row1; report_row2; report_row3] (electric_field d) /\
    Forall2 (cell_value short_decimal 4)
            [report_row1; report_row2; report_row3] (energy_fermi d) /\
    Forall2 (cell_value short_decimal 5)
            [report_row1; report_row2; report_row3] (density_electron d) /\
    Forall2 (cell_value short_decimal 6)
            [report_row1; report_row2; report_row3] (density_hole d) /\
    List.length (z d) = 3 /\
    List.length (energy_conduction d) = 3 /\
    List.length (energy_valence d) = 3 /\
    List.length (electric_field d) = 3 /\
    List.length (energy_fermi d) = 3 /\
    List.length (density_electron d) = 3 /\
    List.length (density_hole d) = 3.
Proof.
  apply (OutputData_series short_decimal report_header
           [report_row1; report_row2; report_row3]).
  - discriminate.
  - vm_compute. reflexivity.
Defined.

Lemma ground_state_coherent_witness :
  (energy_ground_state report_parsed = None <->
   position_ground_state report_parsed = None) /\
  forall energy,
    energy_ground_state report_parsed = Some energy ->
    exists before row after cell y,
      data_rows report_rows = before ++ row :: after /\
      (forall r, In r before -> nth_error r 8 = None) /\
      nth_error row 8 = Some cell /\
      short_decimal cell = Some energy /\
      cell_value short_decimal 0 row y /\
      position_ground_state report_parsed = Some (y / 10)%float.
Proof.
  exact (ground_state_coherent short_decimal report_rows report_parsed
           report_rows_parsed).
Defined.


(** ** The sweep *)

Lemma path_eqb_refl p : path_eqb p p = true.
Proof. unfold path_eqb. now destruct (list_eq_dec string_dec p p). Qed.

Lemma path_eqb_neq p q : p <> q -> path_eqb p q = false.
Proof. intros H. unfold path_eqb. now destruct (list_eq_dec string_dec p q). Qed.

Lemma path_eqb_true p q : path_eqb p q = true -> p = q.
Proof. unfold path_eqb. now destruct (list_eq_dec string_dec p q). Qed.



Lemma always_there_parent p a :
  always_there (p ++ a) = true -> always_there p = true.
Proof.
  destruct p as [|x [|y p]]; simpl; [reflexivity| |discriminate].
  destruct a; [exact (fun H => H)|discriminate].
Qed.

Lemma path_exists_spec fs p :
  path_exists fs p = true <->
  always_there p = true \/
  exists x, In x (map fst (files fs) ++ dirs fs) /\ is_prefix p x = true.
Proof. unfold path_exists. now rewrite orb_true_iff, existsb_exists. Qed.

Lemma fs_read_Some_exists fs p text :
  fs_read fs p = Some text -> path_exists fs p = true.
Proof.
  unfold fs_read. intros H. apply path_exists_spec. right.
  exists p. split.
  - apply in_or_app. left. induction (files fs) as [|[x t] l IH]; simpl in *;
      [discriminate|].
    destruct (path_eqb p x) eqn:E; [left; symmetry; now apply path_eqb_true|].
    right. now apply IH.
  - clear H. induction p as [|a p IH]; simpl; [reflexivity|].
    now rewrite String.eqb_refl.
Qed.

Lemma is_prefix_app p : forall a q,
  is_prefix (p ++ a) q = true -> is_prefix p q = true.
Proof.
  induction p as [|x p IH]; simpl; intros a q H; [reflexivity|].
  destruct q as [|y q]; [discriminate|].
  apply andb_prop in H as [Hx Hp]. rewrite Hx. simpl. eapply IH, Hp.
Qed.

Lemma is_prefix_extend p a : is_prefix p (p ++ a) = true.
Proof.
  induction p as [|x p IH]; simpl; [reflexivity|].
  now rewrite String.eqb_refl.
Qed.

Lemma is_prefix_snoc p b b' :
  is_prefix (p ++ [b']) (p ++ [b]) = true -> b' = b.
Proof.
  induction p as [|x p IH]; simpl.
  - intros H. apply andb_prop in H as [H _]. now apply String.eqb_eq.
  - intros H. apply andb_prop in H as [_ H]. now apply IH.
Qed.

Lemma is_prefix_longer p b : is_prefix (p ++ [b]) p = false.
Proof.
  induction p as [|x p IH]; simpl; [reflexivity|].
  now rewrite IH, andb_false_r.
Qed.

Lemma path_exists_parent fs p a :
  path_exists fs (p ++ a) = true -> path_exists fs p = true.
Proof.
  rewrite !path_exists_spec. intros [H|(x & Hin & Hx)].
  - left. eapply always_there_parent, H.
  - right. exists x. split; [assumption|]. eapply is_prefix_app, Hx.
Qed.

Lemma path_exists_remove fs p q :
  path_exists (fs_remove fs q) p = true -> path_exists fs p = true.
Proof.
  rewrite !path_exists_spec. unfold fs_remove. simpl.
  intros [H|(x & Hin & Hx)]; [now left|right].
  exists x. split; [|assumption].
  apply in_app_or in Hin as [Hin|Hin]; apply in_or_app; [left|now right].
  apply in_map_iff in Hin as (entry & <- & Hentry).
  apply filter_In in Hentry as [Hentry _]. now apply in_map.
Qed.

Lemma path_exists_write fs p q text :
  path_exists (fs_write fs q text) p = true ->
  is_prefix p q = true \/ path_exists fs p = true.
Proof.
  unfold fs_write. unfold path_exists at 1. simpl. intros H.
  apply orb_prop in H as [H|H].
  - right. unfold path_exists. now rewrite H.
  - apply orb_prop in H as [H|H]; [now left|right].
    apply (path_exists_remove fs p q). unfold path_exists.
    rewrite orb_true_iff. now right.
Qed.


Lemma string_app_inv (name a b : string) :
  (name ++ a)%string = (name ++ b)%string -> a = b.
Proof.
  induction name as [|c name IH]; simpl; intros H; [exact H|].
  inversion H. now apply IH.
Qed.

Lemma last_snoc (p : path) (b : string) : basename (p ++ [b]) = b.
Proof. unfold basename. apply last_last. Qed.

Lemma snoc_path_neq (p q : path) (a b : string) :
  a <> b -> p ++ [a] <> q ++ [b].
Proof. intros Hne H. apply app_inj_tail in H as [_ H]. contradiction. Qed.

Lemma string_app_assoc (a b c : string) :
  ((a ++ b) ++ c)%string = (a ++ b ++ c)%string.
Proof. induction a as [|x a IH]; simpl; [reflexivity|now rewrite IH]. Qed.

Lemma string_app_nil_r (a : string) : (a ++ "")%string = a.
Proof. induction a as [|x a IH]; simpl; [reflexivity|now rewrite IH]. Qed.

Lemma string_length_app (a b : string) :
  String.length (a ++ b) = String.length a + String.length b.
Proof. induction a as [|x a IH]; simpl; [reflexivity|now rewrite IH]. Qed.

Lemma split_on_not_nil sep s : forall piece, split_on sep piece s <> [].
Proof.
  induction s as [|c s IH]; simpl; intros piece; [discriminate|].
  destruct (Ascii.eqb c sep); [discriminate|apply IH].
Qed.

Lemma split_on_slash_free s : forall piece,
  slash_free s = true -> split_on "/" piece s = [(piece ++ s)%string].
Proof.
  induction s as [|c s IH]; simpl; intros piece H.
  - now rewrite string_app_nil_r.
  - apply andb_prop in H as [Hc Hs]. apply negb_true_iff in Hc.
    rewrite Hc, IH by assumption. unfold snoc. now rewrite string_app_assoc.
Qed.

(** Text without a slash after a string goes to its last segment. *)
Lemma split_on_app_slash_free name suffix : forall piece,
  slash_free suffix = true ->
  split_on "/" piece (name ++ suffix)
  = removelast (split_on "/" piece name)
    ++ [(last (split_on "/" piece name) "" ++ suffix)%string].
Proof.
  induction name as [|c name IH]; simpl; intros piece H.
  - now apply split_on_slash_free.
  - destruct (Ascii.eqb c "/").
    + rewrite IH by assumption.
      destruct (split_on "/" "" name) as [|x l] eqn:E;
        [now apply split_on_not_nil in E|reflexivity].
    + now apply IH.
Qed.

Lemma kept_app (tail suffix : string) :
  (2 <=? String.length suffix)%nat = true -> kept (tail ++ suffix) = true.
Proof.
  intros H. apply Nat.leb_le in H. unfold kept.
  apply negb_true_iff, orb_false_iff.
  split; apply String.eqb_neq; intros Heq;
    apply (f_equal String.length) in Heq;
    rewrite string_length_app in Heq; simpl in Heq; lia.
Qed.

Lemma root_of_app (name suffix : string) :
  slash_free suffix = true -> root_of (name ++ suffix) = root_of name.
Proof.
  intros H.
  assert (Hfree : forall rest,
             match suffix with
             | String "/" _ => rest
             | _ => None
             end = @None string).
  { intros rest. destruct suffix as [|c suffix]; [reflexivity|].
    simpl in H. apply andb_prop in H as [H _]. apply negb_true_iff in H.
    destruct c as [[] [] [] [] [] [] [] []]; try reflexivity; discriminate. }
  destruct name as [|a name]; simpl.
  - unfold root_of. destruct suffix as [|c suffix]; [reflexivity|].
    simpl in H. apply andb_prop in H as [H _]. apply negb_true_iff in H.
    destruct c as [[] [] [] [] [] [] [] []]; try reflexivity; discriminate.
  - destruct (Ascii.eqb_spec a "/") as [->|Ha].
    + destruct name as [|b name]; simpl.
      * destruct suffix as [|c suffix]; [reflexivity|].
        simpl in H. apply andb_prop in H as [H _]. apply negb_true_iff in H.
        destruct c as [[] [] [] [] [] [] [] []]; try reflexivity; discriminate.
      * destruct (Ascii.eqb_spec b "/") as [->|Hb].
        -- destruct name as [|c name]; simpl; [|reflexivity].
           destruct suffix as [|c suffix]; [reflexivity|].
           simpl in H. apply andb_prop in H as [H _]. apply negb_true_iff in H.
           destruct c as [[] [] [] [] [] [] [] []]; try reflexivity; discriminate.
        -- destruct b as [[] [] [] [] [] [] [] []]; try reflexivity.
           now contradiction Hb.
    + destruct a as [[] [] [] [] [] [] [] []]; try reflexivity.
      now contradiction Ha.
Qed.

(** The path of a file whose name is an identifier and a suffix. *)
Lemma joinpath_suffix (p : path) (name suffix : string) :
  slash_free suffix = true ->
  (2 <=? String.length suffix)%nat = true ->
  joinpath p (name ++ suffix)
  = joinpath_front p name ++ [(last_segment name ++ suffix)%string].
Proof.
  intros Hfree Hlong. unfold joinpath, joinpath_front, segments, last_segment.
  rewrite root_of_app, split_on_app_slash_free by assumption.
  rewrite filter_app. simpl. rewrite kept_app by assumption.
  destruct (root_of name); [reflexivity|now rewrite app_assoc].
Qed.




Lemma preserves_ret {A : Type} (a : A) : preserves_saved (ret a).
Proof. intros w r w' H. now inversion H. Qed.

Lemma preserves_lift {A : Type} (r : result A) : preserves_saved (lift r).
Proof. intros w r' w' H. now inversion H. Qed.

Lemma preserves_bindM {A B : Type} (c : M A) (k : A -> M B) :
  preserves_saved c -> (forall a, preserves_saved (k a)) ->
  preserves_saved (bindM c k).
Proof.
  intros Hc Hk w r w' H. unfold bindM in H.
  destruct (c w) as [[a|e] w1] eqn:E.
  - rewrite (Hk a _ _ _ H). eapply Hc, E.
  - inversion H; subst. eapply Hc, E.
Qed.

Lemma preserves_write_file p text : preserves_saved (write_file p text).
Proof. intros w r w' H. now inversion H. Qed.

Lemma preserves_makedirs p : preserves_saved (makedirs p).
Proof.
  intros w r w' H. unfold makedirs in H.
  destruct (path_exists (fs w) p); [now inversion H|].
  destruct (under_file (fs w) p); now inversion H.
Qed.

Lemma preserves_move src dst : preserves_saved (move src dst).
Proof.
  intros w r w' H. unfold move in H.
  destruct (_ && _); [now inversion H|].
  destruct (fs_read (fs w) src); now inversion H.
Qed.

Section SolverFacts.
Variable F : Formatter.
Variable render : dict float -> result string.
Variable simulator : path -> string -> filesystem -> result filesystem.
Variable csv_reader : string -> list (list string).
Variable float_of_string : string -> option float.
Variable self : lDPoissonExSolver.

Local Abbreviation invoke' := (invoke F render simulator self).
Local Abbreviation collect' := (collect csv_reader float_of_string self).
Local Abbreviation run_single' :=
  (_run_single F render simulator csv_reader float_of_string self).
Local Abbreviation run_points' :=
  (run_points F render simulator csv_reader float_of_string self).
Local Abbreviation run' :=
  (run F render simulator csv_reader float_of_string self).

Lemma preserves_sp_run path_app argument :
  preserves_saved (sp_run simulator path_app argument).
Proof.
  intros w r w' H. unfold sp_run in H.
  destruct (simulator path_app argument (fs w)); now inversion H.
Qed.

Lemma preserves_OutputData_init output_file :
  preserves_saved (OutputData_init csv_reader float_of_string output_file).
Proof.
  intros w r w' H. unfold OutputData_init in H.
  destruct (under_file (fs w) output_file); [now inversion H|].
  destruct (fs_read (fs w) output_file); [now inversion H|].
  destruct (path_exists (fs w) output_file); now inversion H.
Qed.

Lemma preserves_invoke constants variables :
  preserves_saved (invoke' constants variables).
Proof.
  unfold invoke.
  repeat (apply preserves_bindM; [|intros ?]);
    auto using preserves_lift, preserves_write_file, preserves_sp_run,
      preserves_ret.
Qed.

Lemma preserves_collect name : preserves_saved (collect' name).
Proof.
  unfold collect.
  repeat (apply preserves_bindM; [|intros ?]);
    auto using preserves_makedirs, preserves_move, preserves_OutputData_init.
Qed.

Lemma preserves_run_single constants variables :
  preserves_saved (run_single' constants variables).
Proof.
  unfold _run_single. apply preserves_bindM.
  - apply preserves_invoke.
  - intros name. apply preserves_collect.
Qed.

(** The loop over the points persists nothing, whether it ends or raises. *)
Lemma preserves_run_points points : forall energies positions,
  preserves_saved (run_points' points energies positions).
Proof.
  induction points as [|variables points IH]; simpl; intros energies positions.
  - apply preserves_ret.
  - apply preserves_bindM; [apply preserves_run_single|].
    intros output. apply IH.
Qed.

(** A point that raises ends the loop with its exception. *)
Lemma run_points_raises before : forall variables after energies positions
                                        w buffers w1 e w2,
  run_points' before energies positions w = (Ok buffers, w1) ->
  run_single' (_constants (_params_manager self)) variables w1 = (Err e, w2) ->
  run_points' (before ++ variables :: after) energies positions w = (Err e, w2).
Proof.
  induction before as [|point before IH]; simpl;
    intros variables after energies positions w buffers w1 e w2 Hbefore Hpoint.
  - inversion Hbefore; subst. unfold bindM. now rewrite Hpoint.
  - unfold bindM in *.
    destruct (run_single' (_constants (_params_manager self)) point w)
      as [[output|e'] w0]; [|discriminate].
    eapply IH; eassumption.
Qed.

(** When the loop raises, [run] raises the same exception in the same world:
    the finalization is not reached. *)
Lemma run_raises_in_loop w e w' :
  run_points' (generate_variables (_params_manager self)) [] [] w = (Err e, w') ->
  run' w = (Err e, w').
Proof. intros H. unfold run, bindM. now rewrite H. Qed.

End SolverFacts.

Section MissingOutput.
Variable F : Formatter.
Variable render : dict float -> result string.
Variable simulator : path -> string -> filesystem -> result filesystem.
Variable csv_reader : string -> list (list string).
Variable float_of_string : string -> option float.
Variable self : lDPoissonExSolver.




End MissingOutput.




(** What [/] makes of a path and a string: an empty string and a dot add
    nothing, a slash separates, a root starts again. *)
Example joinpath_cases :
  joinpath ["results"] "" = ["results"] /\
  joinpath ["results"] "." = ["results"] /\
  joinpath ["results"] "V(0.5)" = ["results"; "V(0.5)"] /\
  joinpath ["results"] ".txt" = ["results"; ".txt"] /\
  joinpath ["results"] "a/b" = ["results"; "a"; "b"] /\
  joinpath ["results"] "a//./b/" = ["results"; "a"; "b"] /\
  joinpath ["results"] "../b" = ["results"; ".."; "b"] /\
  joinpath ["results"] "/b" = ["/"; "b"] /\
  joinpath ["results"] "//b" = ["//"; "b"] /\
  joinpath ["results"] "///b" = ["/"; "b"].
Proof. vm_compute. repeat split; reflexivity. Qed.

(** Without variables and constants the identifier is empty and the
    directory of the single point is the output root itself: when the root
    is there the point raises [FileExistsError], and when it is not the
    sweep returns with the four files in the root. *)
Example run_empty_identifier :
  generate_variables (_params_manager defaults_solver) = [[]] /\
  fst (run fixed_formatter example_render
           (writing_simulator (join_lines report_rows)) tab_reader
           short_decimal defaults_solver root_world)
  = Err FileExistsError /\
  fst (run fixed_formatter example_render
           (writing_simulator (join_lines report_rows)) tab_reader
           short_decimal defaults_solver empty_world)
  = Ok tt.
Proof. vm_compute. repeat split; reflexivity. Qed.

(** A sweep without points makes no directory: the first [np.save] finds no
    output root, unless it was there before. *)
Example run_hollow_sweep :
  run fixed_formatter example_render silent_simulator tab_reader short_decimal
      hollow_solver empty_world
  = (Err FileNotFoundError, empty_world) /\
  saved (snd (run fixed_formatter example_render silent_simulator tab_reader
                  short_decimal hollow_solver root_world))
  = [(["results"; "V.npy"], VariableValues [0; 0.5]%float);
     (["results"; "W.npy"], VariableValues []);
     (["results"; "energies_ground_states.npy"],
      GroundStates (mkNdarray [2; 0] []));
     (["results"; "positions_ground_states.npy"],
      GroundStates (mkNdarray [2; 0] []))].
Proof. vm_compute. repeat split; reflexivity. Qed.

(** The sweep of the specification's scenario, with a simulator that writes
    its files: two points, the identifiers [V(0.0)] and [V(0.5)], and three
    arrays persisted, the ground states with the shape [(2,)]. *)
Example run_example_sweep :
  saved (snd (run fixed_formatter example_render
                  (writing_simulator (join_lines report_rows)) tab_reader
                  short_decimal example_solver empty_world))
  = [(["results"; "V.npy"], VariableValues [0; 0.5]%float);
     (["results"; "energies_ground_states.npy"],
      GroundStates (mkNdarray [2] [Some 0.125%float; Some 0.125%float]));
     (["results"; "positions_ground_states.npy"],
      GroundStates (mkNdarray [2] [Some 1%float; Some 1%float]))].
Proof. vm_compute. reflexivity. Qed.

(* ===================================================================== *)
(** * Part III: further properties *)
(* ===================================================================== *)

(** ** Construction of the parameter space *)

Lemma dict_set_fresh {V : Type} (d : dict V) k v :
  ~ In k (keys d) -> dict_set d k v = d ++ [(k, v)].
Proof.
  induction d as [|[k' v'] d IH]; simpl; intros Hnotin; [reflexivity|].
  destruct (String.eqb_spec k k') as [->|Hne].
  - exfalso. apply Hnotin. now left.
  - f_equal. apply IH. intros Hin. apply Hnotin. now right.
Qed.

Lemma init_constants_distinct cs : forall d,
  NoDup (keys d ++ map const_name cs) ->
  fold_left (fun d c => dict_set d (const_name c) (const_value c)) cs d
  = d ++ map (fun c => (const_name c, const_value c)) cs.
Proof.
  induction cs as [|c cs IH]; simpl; intros d Hnd.
  - now rewrite app_nil_r.
  - assert (Hnotin : ~ In (const_name c) (keys d)).
    { apply NoDup_remove_2 in Hnd. intros Hin. apply Hnd, in_or_app. now left. }
    rewrite dict_set_fresh by assumption. rewrite IH.
    + now rewrite <- app_assoc.
    + unfold keys. rewrite map_app. simpl. now rewrite <- app_assoc.
Qed.

Lemma init_variables_distinct vs : forall d d',
  init_variables d vs = Ok d' ->
  NoDup (keys d ++ map var_name vs) ->
  exists valss,
    Forall2 (fun var vals => materialize (var_value var) = Ok vals) vs valss /\
    d' = d ++ combine (map var_name vs) valss.
Proof.
  induction vs as [|var vs IH]; simpl; intros d d' H Hnd.
  - inversion H; subst. exists []. split; [constructor|now rewrite app_nil_r].
  - destruct (materialize (var_value var)) as [vals|e] eqn:E; simpl in H;
      [|discriminate].
    assert (Hnotin : ~ In (var_name var) (keys d)).
    { apply NoDup_remove_2 in Hnd. intros Hin. apply Hnd, in_or_app. now left. }
    rewrite dict_set_fresh in H by assumption.
    destruct (IH _ _ H) as (valss & HF & ->).
    + unfold keys. rewrite map_app. simpl. now rewrite <- app_assoc.
    + exists (vals :: valss). split; [now constructor|].
      simpl. now rewrite <- app_assoc.
Qed.

(** X1. With distinct names, construction keeps the declarations as they
    are: the constants mapping lists the constants in declaration order, the
    variables mapping lists the variables in declaration order, each with its
    materialized values, the formats mapping lists their formats, and the
    shape is the tuple of the lengths of the value lists. *)
Theorem init_distinct_names cs vs pm :
  init cs vs = Ok pm ->
  (NoDup (map const_name cs) ->
   _constants pm = map (fun c => (const_name c, const_value c)) cs) /\
  (NoDup (map var_name vs) ->
   exists valss,
     Forall2 (fun var vals => materialize (var_value var) = Ok vals) vs valss /\
     _variables pm = combine (map var_name vs) valss /\
     shape_variables pm = map (@List.length float) valss /\
     _variable_formats pm = map (fun var => (var_name var, var_format var)) vs).
Proof.
  intros Hinit. apply init_variables_inv in Hinit as (Hv & Hc & Hf). split.
  - intros Hnd. rewrite Hc. unfold init_constants.
    now rewrite init_constants_distinct.
  - intros Hnd. destruct (init_variables_distinct _ _ _ Hv Hnd) as (valss & HF & Hd).
    simpl in Hd. exists valss. split; [exact HF|]. split; [exact Hd|]. split.
    + unfold shape_variables, values. rewrite Hd.
      f_equal. clear -HF. induction HF; simpl; [reflexivity|now f_equal].
    + rewrite Hf. unfold init_formats. apply dict_of_pairs_nodup.
      now rewrite map_map.
Qed.

Lemma init_distinct_names_witness :
  (NoDup (map const_name sweep_constants) ->
   _constants sweep_manager
   = map (fun c => (const_name c, const_value c)) sweep_constants) /\
  (NoDup (map var_name sweep_variables) ->
   exists valss,
     Forall2 (fun var vals => materialize (var_value var) = Ok vals)
             sweep_variables valss /\
     _variables sweep_manager = combine (map var_name sweep_variables) valss /\
     shape_variables sweep_manager = map (@List.length float) valss /\
     _variable_formats sweep_manager
     = map (fun var => (var_name var, var_format var)) sweep_variables).
Proof.
  exact (init_distinct_names sweep_constants sweep_variables sweep_manager
           init_sweep).
Defined.

(** X2. Construction stops at the first variable whose range numpy rejects
    and raises the exception of that range, whatever is declared after it;
    it fails in no other way. *)
Theorem init_first_rejected_range cs vs e :
  init cs vs = Err e <->
  exists vs1 var vs2,
    vs = vs1 ++ var :: vs2 /\
    (forall v, In v vs1 -> exists vals, materialize (var_value v) = Ok vals) /\
    materialize (var_value var) = Err e.
Proof.
  unfold init.
  assert (Hgen : forall vs d,
             init_variables d vs = Err e <->
             exists vs1 var vs2,
               vs = vs1 ++ var :: vs2 /\
               (forall v, In v vs1 ->
                          exists vals, materialize (var_value v) = Ok vals) /\
               materialize (var_value var) = Err e).
  { clear vs. induction vs as [|v0 vs IH]; intros d; simpl.
    - split; [discriminate|]. intros (vs1 & var & vs2 & H & _).
      now destruct vs1.
    - destruct (materialize (var_value v0)) as [vals|e0] eqn:E; simpl.
      + rewrite IH. split.
        * intros (vs1 & var & vs2 & -> & Hok & Herr).
          exists (v0 :: vs1), var, vs2. repeat split; try assumption.
          intros v [<-|Hin]; [eauto|now apply Hok].
        * intros (vs1 & var & vs2 & Heq & Hok & Herr).
          destruct vs1 as [|v1 vs1]; simpl in Heq; inversion Heq; subst.
          -- congruence.
          -- exists vs1, var, vs2. repeat split; try assumption.
             intros v Hin. apply Hok. now right.
      + split.
        * intros H. inversion H; subst. exists [], v0, vs.
          repeat split; [intros ? []|assumption].
        * intros (vs1 & var & vs2 & Heq & Hok & Herr).
          destruct vs1 as [|v1 vs1]; simpl in Heq; inversion Heq; subst.
          -- congruence.
          -- destruct (Hok v1 (or_introl eq_refl)) as [vals Hv]. congruence. }
  rewrite <- (Hgen vs []).
  destruct (init_variables [] vs) as [d|e']; simpl; split; intros H;
    try discriminate; inversion H; reflexivity.
Qed.

(** A zero step makes the division of [np.arange] raise, and the variable
    declared after the range is not looked at. *)
Example init_zero_step :
  init sweep_constants zero_step_variables = Err ZeroDivisionError.
Proof. vm_compute. reflexivity. Qed.

Lemma dict_get_Some_in {V : Type} (d : dict V) k v :
  dict_get d k = Some v -> In (k, v) d.
Proof.
  induction d as [|[k' v'] d IH]; simpl; [discriminate|].
  destruct (String.eqb_spec k k') as [->|Hne].
  - intros H. inversion H. now left.
  - intros H. right. now apply IH.
Qed.

Lemma product_with_empty {A : Type} (ls : list (list A)) :
  In [] ls -> product ls = [].
Proof.
  induction ls as [|l ls IH]; simpl; [contradiction|].
  intros [->|Hin]; [reflexivity|]. rewrite (IH Hin).
  induction l as [|x l IHl]; simpl; [reflexivity|exact IHl].
Qed.

Lemma prod_with_zero (shape : list nat) : In 0 shape -> prod shape = 0.
Proof.
  unfold prod. induction shape as [|n shape IH]; simpl; [contradiction|].
  intros [->|Hin]; [reflexivity|]. rewrite (IH Hin). lia.
Qed.

(** X3. A variable without values empties the sweep: no point is generated,
    so the simulator is never run, and the shape holds a zero. *)
Theorem empty_values_empty_sweep cs vs pm name :
  init cs vs = Ok pm ->
  dict_get (_variables pm) name = Some [] ->
  generate_variables pm = [] /\ prod (shape_variables pm) = 0.
Proof.
  intros Hinit Hget.
  pose proof (init_NoDup _ _ _ Hinit) as Hnd.
  apply dict_get_Some_in in Hget.
  assert (Hne : _variables pm <> []) by (intros H; rewrite H in Hget; contradiction).
  assert (Hin : In [] (values (_variables pm))).
  { unfold values. change (@nil float) with (snd (name, @nil float)).
    now apply in_map. }
  split.
  - rewrite generate_variables_cons by assumption.
    now rewrite product_with_empty.
  - apply prod_with_zero. unfold shape_variables.
    change 0 with (List.length (@nil float)). now apply in_map.
Qed.

Lemma init_hollow : init sweep_constants hollow_variables = Ok hollow_manager.
Proof. vm_compute. reflexivity. Qed.

Lemma empty_values_empty_sweep_witness :
  generate_variables hollow_manager = [] /\
  prod (shape_variables hollow_manager) = 0.
Proof.
  apply (empty_values_empty_sweep sweep_constants hollow_variables
           hollow_manager "W" init_hollow).
  reflexivity.
Defined.

Lemma dict_get_notin {V : Type} (d : dict V) k :
  ~ In k (keys d) -> dict_get d k = None.
Proof.
  induction d as [|[k' v'] d IH]; simpl; [reflexivity|].
  intros Hnotin. destruct (String.eqb_spec k k') as [->|Hne].
  - exfalso. apply Hnotin. now left.
  - apply IH. intros Hin. apply Hnotin. now right.
Qed.

Lemma dict_get_union {V : Type} (ps : dict V) : forall (d : dict V) k,
  NoDup (keys ps) ->
  dict_get (dict_union d ps) k
  = match dict_get ps k with
    | Some v => Some v
    | None => dict_get d k
    end.
Proof.
  unfold dict_union.
  induction ps as [|[k0 v0] ps IH]; simpl; intros d k Hnd; [reflexivity|].
  inversion Hnd as [|? ? Hnotin Hnd']; subst.
  rewrite IH by assumption.
  destruct (String.eqb_spec k k0) as [->|Hne].
  - rewrite (dict_get_notin ps k0 Hnotin). apply dict_get_set_same.
  - destruct (dict_get ps k); [reflexivity|]. now apply dict_get_set_other.
Qed.

(** X4. In the context that a point gives to the template
    ([constants | variables]), a name is bound to the value of the variable
    when the point has this variable, and to the constant otherwise: a
    variable hides a constant of the same name. *)
Theorem template_context_lookup cs vs pm point k :
  init cs vs = Ok pm ->
  vs <> [] ->
  In point (generate_variables pm) ->
  dict_get (dict_union (_constants pm) point) k
  = match dict_get point k with
    | Some v => Some v
    | None => dict_get (_constants pm) k
    end.
Proof.
  intros Hinit Hvs Hin. apply dict_get_union.
  erewrite generate_variables_keys by eassumption.
  eapply init_NoDup, Hinit.
Qed.

Lemma init_shadow : init shadow_constants brace_variables = Ok shadow_manager.
Proof. vm_compute. reflexivity. Qed.

Lemma template_context_lookup_witness :
  dict_get (dict_union (_constants shadow_manager)
                       [("V", 0.5%float); ("W", 1.25%float)]) "V"
  = match dict_get [("V", 0.5%float); ("W", 1.25%float)] "V" with
    | Some v => Some v
    | None => dict_get (_constants shadow_manager) "V"
    end.
Proof.
  apply (template_context_lookup shadow_constants brace_variables
           shadow_manager [("V", 0.5%float); ("W", 1.25%float)] "V" init_shadow).
  - discriminate.
  - vm_compute. right. left. reflexivity.
Defined.

(** The context of that point: the variable [V] has replaced the constant. *)
Example template_context_shadow :
  dict_union (_constants shadow_manager) [("V", 0.5%float); ("W", 1.25%float)]
  = [("T", 300%float); ("V", 0.5%float); ("W", 1.25%float)].
Proof. vm_compute. reflexivity. Qed.

(** ** The mappings of a manager *)

Lemma keys_dict_set_same_keys {V W : Type} (d : dict V) (f : dict W) k v w :
  keys f = keys d -> keys (dict_set f k w) = keys (dict_set d k v).
Proof.
  intros Hk. destruct (in_keys_dec k (keys d)) as [Hin|Hnotin].
  - rewrite (keys_dict_set_in d k v Hin).
    rewrite keys_dict_set_in; [exact Hk|now rewrite Hk].
  - rewrite (keys_dict_set_notin d k v Hnotin).
    rewrite keys_dict_set_notin; [now rewrite Hk|now rewrite Hk].
Qed.

(** X5. The mapping of the formats has the names of the mapping of the
    variables, in the same order: for every name of a generated point the
    lookup of the format in [_get_dir_name] finds an entry. *)
Theorem formats_follow_variables cs vs pm :
  init cs vs = Ok pm ->
  keys (_variable_formats pm) = keys (_variables pm) /\
  forall point name,
    vs <> [] -> In point (generate_variables pm) -> In name (keys point) ->
    exists format, dict_get (_variable_formats pm) name = Some format.
Proof.
  intros Hinit.
  assert (Hkeys : keys (_variable_formats pm) = keys (_variables pm)).
  { apply init_variables_inv in Hinit as (Hv & _ & ->).
    unfold init_formats, dict_of_pairs.
    assert (Hgen : forall vs (d d' : dict (list float)) (f : dict (option string)),
               init_variables d vs = Ok d' -> keys f = keys d ->
               keys (fold_left (fun d p => dict_set d (fst p) (snd p))
                               (map (fun var => (var_name var, var_format var)) vs)
                               f) = keys d').
    { clear. induction vs as [|var vs IH]; simpl; intros d d' f H Hk.
      - now inversion H; subst.
      - destruct (materialize (var_value var)) as [vals|e]; simpl in H;
          [|discriminate].
        eapply IH; [exact H|]. now apply keys_dict_set_same_keys. }
    eapply Hgen; [exact Hv|reflexivity]. }
  split; [exact Hkeys|].
  intros point name Hvs Hin Hname.
  rewrite (generate_variables_keys _ _ _ _ Hinit Hvs Hin), <- Hkeys in Hname.
  destruct (dict_get (_variable_formats pm) name) as [format|] eqn:E; [eauto|].
  exfalso. clear -Hname E.
  induction (_variable_formats pm) as [|[k v] d IH]; simpl in *; [contradiction|].
  destruct (String.eqb_spec name k) as [->|Hne]; [discriminate|].
  destruct Hname as [Hname|Hname]; [congruence|now apply IH].
Qed.

Lemma formats_follow_variables_witness :
  keys (_variable_formats sweep_manager) = keys (_variables sweep_manager) /\
  forall point name,
    sweep_variables <> [] -> In point (generate_variables sweep_manager) ->
    In name (keys point) ->
    exists format, dict_get (_variable_formats sweep_manager) name = Some format.
Proof.
  exact (formats_follow_variables sweep_constants sweep_variables sweep_manager
           init_sweep).
Defined.

(** ** The sweep, point by point *)

Lemma fold_dict_set_not_nil (cs : list Constant) : forall (d : dict float),
  d <> [] ->
  fold_left (fun d c => dict_set d (const_name c) (const_value c)) cs d <> [].
Proof.
  induction cs as [|c cs IH]; simpl; intros d Hd; [exact Hd|].
  apply IH, dict_set_not_nil.
Qed.

(** X6. A configuration with constants and no variable cannot be run: its
    single point is the constants mapping, none of whose names has a format,
    so that the identifier of the point raises [KeyError] and [run] stops
    there, before any file is written.  Without constants either, the
    identifier of the single point is the empty string. *)
Theorem constants_only_sweep
  (F : Formatter) (render : dict float -> result string)
  (simulator : path -> string -> filesystem -> result filesystem)
  (csv_reader : string -> list (list string))
  (float_of_string : string -> option float)
  (self : lDPoissonExSolver) (cs : list Constant) (w : world) :
  init cs [] = Ok (_params_manager self) ->
  generate_variables (_params_manager self)
  = [_constants (_params_manager self)] /\
  (cs <> [] ->
   _get_dir_name F (_params_manager self) (_constants (_params_manager self))
   = Err KeyError /\
   run F render simulator csv_reader float_of_string self w = (Err KeyError, w)) /\
  (cs = [] ->
   _get_dir_name F (_params_manager self) (_constants (_params_manager self))
   = Ok "").
Proof.
  intros Hinit. destruct self as [config pm]. simpl in *.
  unfold init in Hinit. simpl in Hinit. inversion Hinit; subst pm. clear Hinit.
  split; [reflexivity|]. split.
  - intros Hcs.
    assert (Hname :
              _get_dir_name F
                (mkParamsManager (init_constants cs) [] (init_formats []))
                (init_constants cs) = Err KeyError).
    { assert (Hne : init_constants cs <> []).
      { destruct cs as [|c cs]; [congruence|]. unfold init_constants. simpl.
        apply fold_dict_set_not_nil. discriminate. }
      destruct (init_constants cs) as [|[k v] rest]; [congruence|].
      reflexivity. }
    split; [exact Hname|].
    unfold run, bindM, generate_variables. simpl.
    unfold bindM, _run_single, bindM, invoke, bindM, lift. simpl.
    now rewrite Hname.
  - intros ->. reflexivity.
Qed.

Lemma constants_only_sweep_witness :
  generate_variables (_params_manager constants_only_solver)
  = [_constants (_params_manager constants_only_solver)] /\
  (sweep_constants <> [] ->
   _get_dir_name fixed_formatter (_params_manager constants_only_solver)
                 (_constants (_params_manager constants_only_solver))
   = Err KeyError /\
   run fixed_formatter example_render silent_simulator tab_reader short_decimal
       constants_only_solver empty_world = (Err KeyError, empty_world)) /\
  (sweep_constants = [] ->
   _get_dir_name fixed_formatter (_params_manager constants_only_solver)
                 (_constants (_params_manager constants_only_solver))
   = Ok "").
Proof.
  apply (constants_only_sweep fixed_formatter example_render silent_simulator
           tab_reader short_decimal constants_only_solver sweep_constants
           empty_world).
  vm_compute. reflexivity.
Defined.

(** X7. The first point that raises ends the sweep: [run] raises the
    exception of that point in the world that the point leaves, whatever the
    points after it are, and nothing has been persisted. *)
Theorem run_aborts_at_first_failure
  (F : Formatter) (render : dict float -> result string)
  (simulator : path -> string -> filesystem -> result filesystem)
  (csv_reader : string -> list (list string))
  (float_of_string : string -> option float)
  (self : lDPoissonExSolver)
  (w : world) (before : list (dict float)) (variables : dict float)
  (after : list (dict float))
  (buffers : list (option float) * list (option float))
  (w1 : world) (e : exn) (w2 : world) :
  generate_variables (_params_manager self) = before ++ variables :: after ->
  run_points F render simulator csv_reader float_of_string self
             before [] [] w = (Ok buffers, w1) ->
  _run_single F render simulator csv_reader float_of_string self
              (_constants (_params_manager self)) variables w1 = (Err e, w2) ->
  run F render simulator csv_reader float_of_string self w = (Err e, w2) /\
  saved w2 = saved w.
Proof.
  intros Hgen Hbefore Hpoint.
  pose proof (run_points_raises F render simulator csv_reader float_of_string
                self before variables after [] [] w buffers w1 e w2
                Hbefore Hpoint) as Hloop.
  rewrite <- Hgen in Hloop. split.
  - now apply run_raises_in_loop.
  - eapply preserves_run_points, Hloop.
Qed.

Lemma run_aborts_at_first_failure_witness :
  run fixed_formatter failing_render silent_simulator tab_reader short_decimal
      example_solver empty_world
  = (Err (OtherError "UndefinedError"), first_point_failed) /\
  saved first_point_failed = saved empty_world.
Proof.
  apply (run_aborts_at_first_failure
           fixed_formatter failing_render silent_simulator tab_reader
           short_decimal example_solver empty_world
           [] [("V", 0%float)] [[("V", 0.5%float)]] ([], []) empty_world).
  - vm_compute. reflexivity.
  - vm_compute. reflexivity.
  - vm_compute. reflexivity.
Defined.




(** X9. A point whose output directory is already there raises
    [FileExistsError] once the simulator has run: the world is the one that
    the simulator leaves, with the input file and the output files still in
    its directory. *)
Theorem run_single_existing_directory
  (F : Formatter) (render : dict float -> result string)
  (simulator : path -> string -> filesystem -> result filesystem)
  (csv_reader : string -> list (list string))
  (float_of_string : string -> option float)
  (self : lDPoissonExSolver)
  (constants variables : dict float) (w : world) (name : string) (w2 : world) :
  invoke F render simulator self constants variables w = (Ok name, w2) ->
  path_exists (fs w2) (joinpath (dir_output (_config self)) name) = true ->
  _run_single F render simulator csv_reader float_of_string self
              constants variables w
  = (Err FileExistsError, w2).
Proof.
  intros Hinvoke Hexists.
  unfold _run_single, bindM. rewrite Hinvoke.
  unfold collect, bindM, makedirs. now rewrite Hexists.
Qed.

Lemma run_single_existing_directory_witness :
  _run_single fixed_formatter example_render
              (writing_simulator (join_lines report_rows)) tab_reader
              short_decimal example_solver
              [("T", 300%float)] [("V", 0%float)] rerun_world
  = (Err FileExistsError, rerun_invoked).
Proof.
  apply (run_single_existing_directory
           fixed_formatter example_render
           (writing_simulator (join_lines report_rows)) tab_reader
           short_decimal example_solver
           [("T", 300%float)] [("V", 0%float)] rerun_world "V(0.0)"
           rerun_invoked).
  - vm_compute. reflexivity.
  - vm_compute. reflexivity.
Defined.

(** ** The collection of the files of a point *)

Lemma fs_read_remove fs p q :
  fs_read (fs_remove fs q) p = if path_eqb p q then None else fs_read fs p.
Proof.
  unfold fs_read, fs_remove. simpl.
  induction (files fs) as [|[x text] l IH]; simpl.
  - now destruct (path_eqb p q).
  - destruct (path_eqb q x) eqn:Eqx; simpl.
    + apply path_eqb_true in Eqx. subst x. rewrite IH.
      now destruct (path_eqb p q).
    + rewrite IH. destruct (path_eqb p x) eqn:Epx.
      * apply path_eqb_true in Epx. subst x.
        destruct (path_eqb p q) eqn:Epq; [|reflexivity].
        apply path_eqb_true in Epq. subst q. rewrite path_eqb_refl in Eqx.
        discriminate.
      * reflexivity.
Qed.

(** What is read after a file has been moved. *)
Lemma fs_read_move fs src dst text p :
  fs_read (fs_write (fs_remove fs src) dst text) p
  = if path_eqb p dst then Some text
    else if path_eqb p src then None else fs_read fs p.
Proof.
  transitivity (if path_eqb p dst then Some text
                else fs_read (fs_remove (fs_remove fs src) dst) p).
  - reflexivity.
  - rewrite !fs_read_remove. now destruct (path_eqb p dst).
Qed.

Lemma is_prefix_refl p : is_prefix p p = true.
Proof. rewrite <- (app_nil_r p) at 2. apply is_prefix_extend. Qed.

Lemma in_files_fs_read fs q :
  In q (map fst (files fs)) -> exists text, fs_read fs q = Some text.
Proof.
  unfold fs_read. induction (files fs) as [|[x t] l IH]; simpl; [tauto|].
  intros [->|H].
  - rewrite path_eqb_refl. eauto.
  - destruct (path_eqb q x); eauto.
Qed.

Lemma fs_read_in_files fs q text :
  fs_read fs q = Some text -> In q (map fst (files fs)).
Proof.
  unfold fs_read. induction (files fs) as [|[x t] l IH]; simpl; [discriminate|].
  destruct (path_eqb q x) eqn:E; [left; symmetry; now apply path_eqb_true|].
  intros H. right. now apply IH.
Qed.

(** What lies on the way to a file of a directory lies on the way to the
    directory, or is the directory. *)
Lemma is_prefix_snoc_proper D : forall q b,
  is_prefix q (D ++ [b]) = true -> q <> D ++ [b] -> is_prefix q D = true.
Proof.
  induction D as [|x D IH]; simpl; intros q b H Hne.
  - destruct q as [|y q]; [reflexivity|]. simpl in H.
    apply andb_prop in H as [Hy Hq]. apply String.eqb_eq in Hy. subst y.
    destruct q; [now contradiction Hne|discriminate].
  - destruct q as [|y q]; [reflexivity|]. simpl in H |- *.
    apply andb_prop in H as [Hy Hq]. rewrite Hy. simpl.
    apply (IH _ b Hq). intros ->. apply Hne.
    apply String.eqb_eq in Hy. now subst y.
Qed.

(** No regular file is on the way to a file of a directory that has none on
    the way to itself. *)
Lemma under_file_snoc fs D b :
  (forall q, In q (map fst (files fs)) -> is_prefix q D = false) ->
  under_file fs (D ++ [b]) = false.
Proof.
  intros Hway. unfold under_file. apply not_true_is_false. intros H.
  apply existsb_exists in H as (q & Hin & Hq).
  apply andb_prop in Hq as [Hpre Hne]. apply negb_true_iff in Hne.
  pose proof (Hway q Hin) as Hq.
  rewrite (is_prefix_snoc_proper D q b Hpre) in Hq; [discriminate|].
  intros ->. now rewrite path_eqb_refl in Hne.
Qed.

Lemma free_way fs D :
  path_exists fs D = false -> under_file fs D = false ->
  forall q, In q (map fst (files fs)) -> is_prefix q D = false.
Proof.
  intros Hfree Hway q Hin. apply not_true_is_false. intros Hpre.
  destruct (list_eq_dec string_dec q D) as [->|Hne].
  - apply in_files_fs_read in Hin as [text Hread].
    apply fs_read_Some_exists in Hread. congruence.
  - assert (under_file fs D = true); [|congruence].
    apply existsb_exists. exists q. split; [assumption|].
    now rewrite Hpre, path_eqb_neq.
Qed.

Lemma is_dir_holding D moved fs : holding D moved fs -> is_dir fs D = true.
Proof.
  intros (Hin & Hread & _). unfold is_dir. rewrite Hread.
  apply path_exists_spec. right. exists D. split.
  - apply in_or_app. now right.
  - apply is_prefix_refl.
Qed.

Lemma holding_makedirs D w :
  path_exists (fs w) D = false ->
  under_file (fs w) D = false ->
  makedirs D w
  = (Ok tt, mkWorld (mkFilesystem (files (fs w)) (D :: dirs (fs w))) (saved w)) /\
  holding D [] (mkFilesystem (files (fs w)) (D :: dirs (fs w))).
Proof.
  intros Hfree Hway. unfold makedirs. rewrite Hfree, Hway.
  split; [reflexivity|].
  split; [|split; [|split]]; [| | |exact (free_way _ _ Hfree Hway)].
  - now left.
  - unfold fs_read. simpl.
    destruct (fs_read_in (files (fs w)) D) as [text|] eqn:E; [|reflexivity].
    apply fs_read_Some_exists in E. congruence.
  - intros b H. exfalso. apply path_exists_spec in H. simpl in H.
    assert (Hno : path_exists (fs w) D <> true) by congruence.
    rewrite path_exists_spec in Hno.
    destruct H as [H|(x & Hin & Hx)].
    + apply Hno. left. eapply always_there_parent, H.
    + apply in_app_or in Hin as [Hin|[<-|Hin]].
      * apply Hno. right. exists x. split.
        -- apply in_or_app. now left.
        -- eapply is_prefix_app, Hx.
      * rewrite is_prefix_longer in Hx. discriminate.
      * apply Hno. right. exists x. split.
        -- apply in_or_app. now right.
        -- eapply is_prefix_app, Hx.
Qed.

Lemma move_holding D moved P b w text :
  holding D moved (fs w) ->
  ~ In b moved ->
  fs_read (fs w) (P ++ [b]) = Some text ->
  move (P ++ [b]) D w
  = (Ok tt, mkWorld (fs_write (fs_remove (fs w) (P ++ [b])) (D ++ [b]) text)
                    (saved w)) /\
  holding D (b :: moved) (fs_write (fs_remove (fs w) (P ++ [b])) (D ++ [b]) text).
Proof.
  intros Hold Hnew Hsrc. pose proof (is_dir_holding _ _ _ Hold) as Hdir.
  destruct Hold as (Hin & Hread & Hunder & Hway).
  unfold move. rewrite Hdir, last_snoc. simpl.
  destruct (path_exists (fs w) (D ++ [b])) eqn:E;
    [exfalso; apply Hnew, Hunder, E|].
  rewrite Hsrc. split; [reflexivity|]. split; [|split; [|split]].
  - exact Hin.
  - rewrite fs_read_move. rewrite path_eqb_neq.
    + now destruct (path_eqb D (P ++ [b])).
    + intros H. apply (f_equal (@List.length string)) in H.
      rewrite length_app in H. simpl in H. lia.
  - intros b' H. apply path_exists_write in H as [H|H].
    + left. symmetry. eapply is_prefix_snoc, H.
    + right. apply Hunder. eapply path_exists_remove, H.
  - intros q Hq. simpl in Hq. destruct Hq as [<-|Hq].
    + apply is_prefix_longer.
    + apply in_map_iff in Hq as (entry & <- & Hentry).
      apply filter_In in Hentry as [Hentry _].
      apply filter_In in Hentry as [Hentry _].
      apply Hway. now apply in_map.
Qed.

Ltac distinct_paths :=
  first
    [ apply snoc_path_neq;
      let H := fresh in intros H; apply string_app_inv in H; discriminate H
    | let H := fresh in
      intros H; apply app_inj_tail in H; destruct H as [H _]; congruence
    | assumption
    | apply not_eq_sym; assumption ].

Ltac compare_paths :=
  repeat match goal with
         | |- context [path_eqb ?x ?x] => rewrite (path_eqb_refl x)
         | |- context [path_eqb ?x ?y] =>
             rewrite (path_eqb_neq x y) by distinct_paths
         end.

Lemma root_of_slash_free (name : string) :
  slash_free name = true -> root_of name = None.
Proof. intros H. exact (root_of_app "" name H). Qed.

(** For an identifier without a slash, a file named after it lies in the
    directory itself. *)
Lemma joinpath_slash_free (p : path) (name suffix : string) :
  slash_free name = true ->
  In suffix artifact_suffixes ->
  joinpath p (name ++ suffix) = p ++ [(name ++ suffix)%string].
Proof.
  intros Hname Hsuffix.
  rewrite joinpath_suffix
    by (destruct Hsuffix as [<-|[<-|[<-|[<-|[]]]]]; reflexivity).
  unfold joinpath_front, last_segment, segments.
  rewrite root_of_slash_free, split_on_slash_free by assumption.
  simpl. now rewrite app_nil_r.
Qed.

(** X10. When the identifier of the point holds no slash, the directory of
    the point is not there yet and can be made (no regular file on the way
    to it, no [".."] in the paths), and the input file and the three output
    files are in the directory of the simulator, the collection moves the
    four files into the new directory with their text, leaves none of them
    behind and no other file changed, persists nothing, and returns what the
    parser makes of the moved report. *)
Theorem collect_relocates
  (csv_reader : string -> list (list string))
  (float_of_string : string -> option float)
  (self : lDPoissonExSolver) (name : string) (w : world)
  (input report status wave : string) :
  slash_free name = true ->
  dotdot_free (parent (path_1d_poisson (_config self))) = true ->
  dotdot_free (joinpath (dir_output (_config self)) name) = true ->
  path_exists (fs w) (joinpath (dir_output (_config self)) name) = false ->
  under_file (fs w) (joinpath (dir_output (_config self)) name) = false ->
  fs_read (fs w) (joinpath (parent (path_1d_poisson (_config self)))
                           (name ++ ".txt")) = Some input ->
  fs_read (fs w) (joinpath (parent (path_1d_poisson (_config self)))
                           (name ++ "_Out.txt")) = Some report ->
  fs_read (fs w) (joinpath (parent (path_1d_poisson (_config self)))
                           (name ++ "_Status.txt")) = Some status ->
  fs_read (fs w) (joinpath (parent (path_1d_poisson (_config self)))
                           (name ++ "_Wave.txt")) = Some wave ->
  exists w',
    collect csv_reader float_of_string self name w
    = (OutputData_of_rows float_of_string (csv_reader report), w') /\
    saved w' = saved w /\
    (forall suffix,
        In suffix artifact_suffixes ->
        fs_read (fs w') (joinpath (joinpath (dir_output (_config self)) name)
                                  (name ++ suffix))
        = fs_read (fs w) (joinpath (parent (path_1d_poisson (_config self)))
                                   (name ++ suffix)) /\
        fs_read (fs w') (joinpath (parent (path_1d_poisson (_config self)))
                                  (name ++ suffix)) = None) /\
    (forall p,
        (forall suffix,
            In suffix artifact_suffixes ->
            p <> joinpath (parent (path_1d_poisson (_config self)))
                          (name ++ suffix) /\
            p <> joinpath (joinpath (dir_output (_config self)) name)
                          (name ++ suffix)) ->
        fs_read (fs w') p = fs_read (fs w) p).
Proof.
  set (P := parent (path_1d_poisson (_config self))).
  set (D := joinpath (dir_output (_config self)) name).
  intros Hname _ _ Hfree Hway Hin Hout Hstatus Hwave.
  pose proof (fun p => joinpath_slash_free p name ".txt" Hname
                         ltac:(simpl; tauto)) as J1.
  pose proof (fun p => joinpath_slash_free p name "_Out.txt" Hname
                         ltac:(simpl; tauto)) as J2.
  pose proof (fun p => joinpath_slash_free p name "_Status.txt" Hname
                         ltac:(simpl; tauto)) as J3.
  pose proof (fun p => joinpath_slash_free p name "_Wave.txt" Hname
                         ltac:(simpl; tauto)) as J4.
  rewrite J1 in Hin. rewrite J2 in Hout. rewrite J3 in Hstatus.
  rewrite J4 in Hwave.
  assert (HPD : P <> D).
  { intros HPD. apply fs_read_Some_exists, path_exists_parent in Hin.
    rewrite HPD in Hin. congruence. }
  destruct (holding_makedirs D w Hfree Hway) as [Hmk H0].
  match type of Hmk with
  | _ = (_, mkWorld ?f _) => set (fs0 := f) in *
  end.
  assert (Hread0 : forall p, fs_read fs0 p = fs_read (fs w) p) by reflexivity.
  destruct (move_holding D [] P (name ++ ".txt")%string
              (mkWorld fs0 (saved w)) input H0) as [Hm1 H1];
    [simpl; tauto|exact Hin|].
  simpl in Hm1, H1.
  set (fs1 := fs_write (fs_remove fs0 (P ++ [(name ++ ".txt")%string]))
                       (D ++ [(name ++ ".txt")%string]) input) in *.
  destruct (move_holding D _ P (name ++ "_Out.txt")%string
              (mkWorld fs1 (saved w)) report H1) as [Hm2 H2].
  { simpl. intros [H|[]]. apply string_app_inv in H. discriminate H. }
  { simpl. unfold fs1. rewrite fs_read_move. compare_paths.
    now rewrite Hread0. }
  simpl in Hm2, H2.
  set (fs2 := fs_write (fs_remove fs1 (P ++ [(name ++ "_Out.txt")%string]))
                       (D ++ [(name ++ "_Out.txt")%string]) report) in *.
  destruct (move_holding D _ P (name ++ "_Status.txt")%string
              (mkWorld fs2 (saved w)) status H2) as [Hm3 H3].
  { simpl. intros [H|[H|[]]]; apply string_app_inv in H; discriminate H. }
  { simpl. unfold fs2, fs1. rewrite !fs_read_move. compare_paths.
    now rewrite Hread0. }
  simpl in Hm3, H3.
  set (fs3 := fs_write (fs_remove fs2 (P ++ [(name ++ "_Status.txt")%string]))
                       (D ++ [(name ++ "_Status.txt")%string]) status) in *.
  destruct (move_holding D _ P (name ++ "_Wave.txt")%string
              (mkWorld fs3 (saved w)) wave H3) as [Hm4 H4].
  { simpl. intros [H|[H|[H|[]]]]; apply string_app_inv in H; discriminate H. }
  { simpl. unfold fs3, fs2, fs1. rewrite !fs_read_move. compare_paths.
    now rewrite Hread0. }
  simpl in Hm4, H4.
  set (fs4 := fs_write (fs_remove fs3 (P ++ [(name ++ "_Wave.txt")%string]))
                       (D ++ [(name ++ "_Wave.txt")%string]) wave) in *.
  exists (mkWorld fs4 (saved w)). split; [|split; [reflexivity|split]].
  - unfold collect, bindM. cbv zeta. fold P. fold D.
    rewrite !J1, !J2, !J3, !J4.
    rewrite Hmk. cbv beta iota. rewrite Hm1. cbv beta iota.
    rewrite Hm2. cbv beta iota. rewrite Hm3. cbv beta iota.
    rewrite Hm4. cbv beta iota. unfold OutputData_init. cbn [fs].
    rewrite (under_file_snoc fs4 D _ (proj2 (proj2 (proj2 H4)))).
    unfold fs4, fs3, fs2. rewrite !fs_read_move. compare_paths. reflexivity.
  - intros suffix Hsuffix.
    rewrite !(fun p => joinpath_slash_free p name suffix Hname Hsuffix).
    cbn [fs].
    unfold fs4, fs3, fs2, fs1. rewrite !fs_read_move, !Hread0.
    destruct Hsuffix as [<-|[<-|[<-|[<-|[]]]]]; compare_paths;
      split; try reflexivity; congruence.
  - intros p Hp. cbn [fs].
    destruct (Hp ".txt") as [Hp1 Hp1']; [simpl; tauto|].
    destruct (Hp "_Out.txt") as [Hp2 Hp2']; [simpl; tauto|].
    destruct (Hp "_Status.txt") as [Hp3 Hp3']; [simpl; tauto|].
    destruct (Hp "_Wave.txt") as [Hp4 Hp4']; [simpl; tauto|].
    rewrite J1 in Hp1, Hp1'. rewrite J2 in Hp2, Hp2'.
    rewrite J3 in Hp3, Hp3'. rewrite J4 in Hp4, Hp4'.
    unfold fs4, fs3, fs2, fs1. rewrite !fs_read_move, Hread0.
    now rewrite !path_eqb_neq by assumption.
Qed.

Lemma collect_relocates_witness :
  exists w',
    collect tab_reader short_decimal example_solver "V(0.0)" first_point_invoked
    = (OutputData_of_rows short_decimal (tab_reader (join_lines report_rows)), w') /\
    saved w' = saved first_point_invoked /\
    (forall suffix,
        In suffix artifact_suffixes ->
        fs_read (fs w')
                (joinpath (joinpath (dir_output (_config example_solver)) "V(0.0)")
                          ("V(0.0)" ++ suffix))
        = fs_read (fs first_point_invoked)
                  (joinpath (parent (path_1d_poisson (_config example_solver)))
                            ("V(0.0)" ++ suffix)) /\
        fs_read (fs w')
                (joinpath (parent (path_1d_poisson (_config example_solver)))
                          ("V(0.0)" ++ suffix)) = None) /\
    (forall p,
        (forall suffix,
            In suffix artifact_suffixes ->
            p <> joinpath (parent (path_1d_poisson (_config example_solver)))
                          ("V(0.0)" ++ suffix) /\
            p <> joinpath (joinpath (dir_output (_config example_solver)) "V(0.0)")
                          ("V(0.0)" ++ suffix)) ->
        fs_read (fs w') p = fs_read (fs first_point_invoked) p).
Proof.
  apply (collect_relocates tab_reader short_decimal example_solver "V(0.0)"
           first_point_invoked "input" (join_lines report_rows) "ok" "").
  - reflexivity.
  - reflexivity.
  - reflexivity.
  - vm_compute. reflexivity.
  - vm_compute. reflexivity.
  - vm_compute. reflexivity.
  - vm_compute. reflexivity.
  - vm_compute. reflexivity.
  - vm_compute. reflexivity.
Defined.

(** ** The whole sweep *)

Section WholeSweep.
Variable F : Formatter.
Variable render : dict float -> result string.
Variable simulator : path -> string -> filesystem -> result filesystem.
Variable csv_reader : string -> list (list string).
Variable float_of_string : string -> option float.
Variable self : lDPoissonExSolver.

Local Abbreviation step :=
  (_run_single F render simulator csv_reader float_of_string self
               (_constants (_params_manager self))).
Local Abbreviation run_points' :=
  (run_points F render simulator csv_reader float_of_string self).

(** The loop that returns has processed every point in order, and has
    appended the two scalars of each report to the buffers. *)
Lemma run_points_processed points : forall energies positions w buffers w',
  run_points' points energies positions w = (Ok buffers, w') ->
  exists outputs,
    processed step points w outputs w' /\
    fst buffers = energies ++ map energy_ground_state outputs /\
    snd buffers = positions ++ map position_ground_state outputs.
Proof.
  induction points as [|point points IH]; simpl;
    intros energies positions w buffers w' H.
  - inversion H; subst. exists []. simpl. rewrite !app_nil_r.
    repeat split. constructor.
  - unfold bindM in H.
    destruct (step point w) as [[output|e] w1] eqn:E; [|discriminate].
    destruct (IH _ _ _ _ _ H) as (outputs & Hp & He & Hq).
    exists (output :: outputs). repeat split.
    + econstructor; eassumption.
    + rewrite He, <- app_assoc. reflexivity.
    + rewrite Hq, <- app_assoc. reflexivity.
Qed.

Lemma processed_length points : forall w outputs w',
  processed step points w outputs w' ->
  List.length outputs = List.length points.
Proof.
  intros w outputs w' H. induction H; simpl; [reflexivity|now f_equal].
Qed.

(** A save that returns has recorded the array and left the files alone. *)
Lemma np_save_Ok p arr w w' :
  np_save p arr w = (Ok tt, w') ->
  w' = mkWorld (fs w) (saved w ++ [(p, arr)]).
Proof.
  unfold np_save. destruct (under_file (fs w) p); [discriminate|].
  destruct (negb _); [discriminate|].
  destruct (is_dir (fs w) p); [discriminate|].
  intros H. now inversion H.
Qed.

Lemma save_variables_saved items : forall w w',
  save_variables self items w = (Ok tt, w') ->
  w' = mkWorld (fs w)
               (saved w ++ variable_arrays (dir_output (_config self)) items).
Proof.
  induction items as [|[var_name var_values] items IH]; intros w w'; simpl.
  - unfold ret. intros H. injection H as <-. rewrite app_nil_r. now destruct w.
  - unfold bindM.
    destruct (np_save _ _ w) as [[[]|e] w1] eqn:Hsave; [|discriminate].
    apply np_save_Ok in Hsave. subst w1. intros H. apply IH in H. subst w'.
    simpl. now rewrite <- app_assoc.
Qed.

End WholeSweep.

(** X11. When [run] returns, every point has been processed in iteration
    order, and exactly these arrays have been persisted, in this order: the
    values of each variable under its name, then the ground-state energies
    and the ground-state positions of the reports, in iteration order, with
    the shape of the sweep. *)
Theorem run_persists
  (F : Formatter) (render : dict float -> result string)
  (simulator : path -> string -> filesystem -> result filesystem)
  (csv_reader : string -> list (list string))
  (float_of_string : string -> option float)
  (self : lDPoissonExSolver) (w w' : world) :
  run F render simulator csv_reader float_of_string self w = (Ok tt, w') ->
  exists outputs,
    processed (_run_single F render simulator csv_reader float_of_string self
                           (_constants (_params_manager self)))
              (generate_variables (_params_manager self)) w outputs
              (mkWorld (fs w') (saved w)) /\
    saved w'
    = saved w
      ++ variable_arrays (dir_output (_config self))
                         (_variables (_params_manager self))
      ++ [(dir_output (_config self) ++ ["energies_ground_states.npy"],
           GroundStates
             (mkNdarray (shape_variables (_params_manager self))
                        (map energy_ground_state outputs)));
          (dir_output (_config self) ++ ["positions_ground_states.npy"],
           GroundStates
             (mkNdarray (shape_variables (_params_manager self))
                        (map position_ground_state outputs)))].
Proof.
  unfold run, bindM.
  destruct (run_points F render simulator csv_reader float_of_string self
              (generate_variables (_params_manager self)) [] [] w)
    as [[buffers|e] w1] eqn:Hloop; [|discriminate].
  destruct (save_variables self (_variables (_params_manager self)) w1)
    as [[[]|e] w2] eqn:Hsave; [|discriminate].
  apply save_variables_saved in Hsave. subst w2.
  unfold lift, reshape.
  destruct (_ =? _)%nat; [|discriminate].
  destruct (_ =? _)%nat; [|discriminate].
  match goal with
  | |- context [np_save ?p ?arr ?w0] =>
      destruct (np_save p arr w0) as [[[]|e] w3] eqn:Hsave; [|discriminate];
      apply np_save_Ok in Hsave; subst w3
  end.
  intros H. apply np_save_Ok in H. subst w'. simpl.
  pose proof (preserves_run_points F render simulator csv_reader
                float_of_string self _ _ _ _ _ _ Hloop) as Hsaved.
  destruct (run_points_processed F render simulator csv_reader float_of_string
              self _ _ _ _ _ _ Hloop) as (outputs & Hp & He & Hq).
  simpl in He, Hq. exists outputs. split.
  - rewrite <- Hsaved. now destruct w1.
  - rewrite Hsaved, He, Hq, <- !app_assoc. reflexivity.
Qed.

Lemma run_example_returns :
  run fixed_formatter example_render
      (writing_simulator (join_lines report_rows)) tab_reader short_decimal
      example_solver empty_world
  = (Ok tt, example_sweep_done).
Proof. vm_compute. reflexivity. Qed.

Lemma run_persists_witness :
  exists outputs,
    processed (_run_single fixed_formatter example_render
                           (writing_simulator (join_lines report_rows))
                           tab_reader short_decimal example_solver
                           (_constants (_params_manager example_solver)))
              (generate_variables (_params_manager example_solver))
              empty_world outputs
              (mkWorld (fs example_sweep_done) (saved empty_world)) /\
    saved example_sweep_done
    = saved empty_world
      ++ variable_arrays (dir_output (_config example_solver))
                         (_variables (_params_manager example_solver))
      ++ [(dir_output (_config example_solver) ++ ["energies_ground_states.npy"],
           GroundStates
             (mkNdarray (shape_variables (_params_manager example_solver))
                        (map energy_ground_state outputs)));
          (dir_output (_config example_solver) ++ ["positions_ground_states.npy"],
           GroundStates
             (mkNdarray (shape_variables (_params_manager example_solver))
                        (map position_ground_state outputs)))].
Proof.
  exact (run_persists fixed_formatter example_render
           (writing_simulator (join_lines report_rows)) tab_reader
           short_decimal example_solver empty_world example_sweep_done
           run_example_returns).
Defined.

(** X12. For a manager that [__init__] has built, the loop that returns has
    filled each buffer with as many scalars as the shape asks for, so that
    neither reshape of the finalization can raise. *)
Theorem run_buffers_fit_shape
  (F : Formatter) (render : dict float -> result string)
  (simulator : path -> string -> filesystem -> result filesystem)
  (csv_reader : string -> list (list string))
  (float_of_string : string -> option float)
  (self : lDPoissonExSolver) (cs : list Constant) (vs : list Variable_)
  (w : world) (buffers : list (option float) * list (option float))
  (w1 : world) :
  init cs vs = Ok (_params_manager self) ->
  run_points F render simulator csv_reader float_of_string self
             (generate_variables (_params_manager self)) [] [] w
  = (Ok buffers, w1) ->
  List.length (fst buffers) = prod (shape_variables (_params_manager self)) /\
  List.length (snd buffers) = prod (shape_variables (_params_manager self)) /\
  reshape (fst buffers) (shape_variables (_params_manager self))
  = Ok (mkNdarray (shape_variables (_params_manager self)) (fst buffers)) /\
  reshape (snd buffers) (shape_variables (_params_manager self))
  = Ok (mkNdarray (shape_variables (_params_manager self)) (snd buffers)).
Proof.
  intros Hinit Hloop.
  destruct (run_points_processed F render simulator csv_reader float_of_string
              self _ _ _ _ _ _ Hloop) as (outputs & Hp & He & Hq).
  apply processed_length in Hp. simpl in He, Hq.
  pose proof (length_generate_variables _ (init_NoDup _ _ _ Hinit)) as Hcount.
  assert (H1 : List.length (fst buffers)
               = prod (shape_variables (_params_manager self)))
    by (rewrite He, length_map; congruence).
  assert (H2 : List.length (snd buffers)
               = prod (shape_variables (_params_manager self)))
    by (rewrite Hq, length_map; congruence).
  repeat split; try assumption; unfold reshape.
  - now rewrite H1, Nat.eqb_refl.
  - now rewrite H2, Nat.eqb_refl.
Qed.

Lemma init_example :
  init (constants example_config) (variables example_config)
  = Ok (_params_manager example_solver).
Proof. vm_compute. reflexivity. Qed.

Lemma run_buffers_fit_shape_witness :
  List.length (fst ([Some 0.125%float; Some 0.125%float],
                    [Some 1%float; Some 1%float]))
  = prod (shape_variables (_params_manager example_solver)) /\
  List.length (snd ([Some 0.125%float; Some 0.125%float],
                    [Some 1%float; Some 1%float]))
  = prod (shape_variables (_params_manager example_solver)) /\
  reshape (fst ([Some 0.125%float; Some 0.125%float],
                [Some 1%float; Some 1%float]))
          (shape_variables (_params_manager example_solver))
  = Ok (mkNdarray (shape_variables (_params_manager example_solver))
                  (fst ([Some 0.125%float; Some 0.125%float],
                        [Some 1%float; Some 1%float]))) /\
  reshape (snd ([Some 0.125%float; Some 0.125%float],
                [Some 1%float; Some 1%float]))
          (shape_variables (_params_manager example_solver))
  = Ok (mkNdarray (shape_variables (_params_manager example_solver))
                  (snd ([Some 0.125%float; Some 0.125%float],
                        [Some 1%float; Some 1%float]))).
Proof.
  apply (run_buffers_fit_shape fixed_formatter example_render
           (writing_simulator (join_lines report_rows)) tab_reader
           short_decimal example_solver
           (constants example_config) (variables example_config)
           empty_world _ (mkWorld (fs example_sweep_done) []) init_example).
  vm_compute. reflexivity.
Defined.

(** ** The parser on every file *)

#[local] Arguments dict_row names row : simpl never.

(** X13. In every file that [OutputData] parses, blank rows or not, the
    entries of the seven series are, in order, the numbers in the first
    seven cells of the data rows, the positions divided by ten: each series
    has one entry per data row, and a file without data row gives empty
    series. *)
Theorem OutputData_series_of_data_rows
  (float_of_string : string -> option float)
  (rows : list (list string)) (d : OutputData) :
  OutputData_of_rows float_of_string rows = Ok d ->
  Forall2 (position_value float_of_string) (data_rows rows) (z d) /\
  Forall2 (cell_value float_of_string 1) (data_rows rows) (energy_conduction d) /\
  Forall2 (cell_value float_of_string 2) (data_rows rows) (energy_valence d) /\
  Forall2 (cell_value float_of_string 3) (data_rows rows) (electric_field d) /\
  Forall2 (cell_value float_of_string 4) (data_rows rows) (energy_fermi d) /\
  Forall2 (cell_value float_of_string 5) (data_rows rows) (density_electron d) /\
  Forall2 (cell_value float_of_string 6) (data_rows rows) (density_hole d).
Proof.
  rewrite OutputData_of_rows_data. intros H.
  apply parse_rows_series in H as (Hz & Hec & Hev & He & Hef & Hn & Hp).
  destruct Hz as (? & -> & ?), Hec as (? & -> & ?), Hev as (? & -> & ?),
    He as (? & -> & ?), Hef as (? & -> & ?), Hn as (? & -> & ?),
    Hp as (? & -> & ?).
  simpl. repeat split; assumption.
Qed.

Lemma OutputData_series_of_data_rows_witness :
  Forall2 (position_value short_decimal) (data_rows report_rows)
          (z report_parsed) /\
  Forall2 (cell_value short_decimal 1) (data_rows report_rows)
          (energy_conduction report_parsed) /\
  Forall2 (cell_value short_decimal 2) (data_rows report_rows)
          (energy_valence report_parsed) /\
  Forall2 (cell_value short_decimal 3) (data_rows report_rows)
          (electric_field report_parsed) /\
  Forall2 (cell_value short_decimal 4) (data_rows report_rows)
          (energy_fermi report_parsed) /\
  Forall2 (cell_value short_decimal 5) (data_rows report_rows)
          (density_electron report_parsed) /\
  Forall2 (cell_value short_decimal 6) (data_rows report_rows)
          (density_hole report_parsed).
Proof.
  exact (OutputData_series_of_data_rows short_decimal report_rows report_parsed
           report_rows_parsed).
Defined.

Lemma parse_rows_app float_of_string rows1 : forall d rows2,
  parse_rows float_of_string d (rows1 ++ rows2)
  = bind (parse_rows float_of_string d rows1)
         (fun d1 => parse_rows float_of_string d1 rows2).
Proof.
  induction rows1 as [|row rows1 IH]; simpl; intros d rows2; [reflexivity|].
  destruct (parse_row float_of_string d row) as [d1|e]; simpl; [apply IH|reflexivity].
Qed.

Lemma seven_numbers_at float_of_string row column :
  seven_numbers float_of_string row = true -> column < 7 ->
  exists x, number_at float_of_string column row = Some x.
Proof.
  unfold seven_numbers. rewrite forallb_forall. intros H Hc.
  assert (Hin : In column (seq 0 7)) by (apply in_seq; lia).
  specialize (H column Hin).
  destruct (number_at float_of_string column row); [eauto|discriminate].
Qed.

(** The exception of a row in which the cell at [column] is the first of the
    seven that is missing or does not hold a number. *)
Lemma parse_row_first_bad_cell float_of_string d row column :
  column < 7 ->
  (forall c, c < column -> exists x, number_at float_of_string c row = Some x) ->
  number_at float_of_string column row = None ->
  parse_row float_of_string d (dict_row _FIELD_NAMES row)
  = Err (match nth_error row column with
         | Some _ => ValueError
         | None => TypeError
         end).
Proof.
  intros Hlt Hbefore Hbad.
  destruct (row_get_columns row) as (H0 & H1 & H2 & H3 & H4 & H5 & H6 & H8).
  unfold parse_row.
  rewrite !(float_cell_number _ _ _ _ H0), (float_cell_number _ _ _ _ H1),
    (float_cell_number _ _ _ _ H2), (float_cell_number _ _ _ _ H3),
    (float_cell_number _ _ _ _ H4), (float_cell_number _ _ _ _ H5),
    (float_cell_number _ _ _ _ H6).
  do 7 (destruct column as [|column];
        [repeat match goal with
                | |- context [number_at float_of_string ?c row] =>
                    lazymatch goal with
                    | Hb : number_at float_of_string c row = None |- _ => fail
                    | _ => let x := fresh "x" in
                           let Hx := fresh "Hx" in
                           destruct (Hbefore c) as [x Hx]; [lia|];
                           rewrite Hx; cbn [bind]
                    end
                end;
         rewrite Hbad; cbn [bind];
         match goal with
         | |- context [nth_error row ?c] => now destruct (nth_error row c)
         end|]).
  lia.
Qed.

(** X14. In a file whose data rows are well formed up to a row in which
    one of the first seven cells is missing or does not hold a number, the
    parse raises for the first such cell of that row: [TypeError] when the
    row is too short to have the cell, [ValueError] when the cell does not
    hold a number. *)
Theorem OutputData_first_bad_cell
  (float_of_string : string -> option float)
  (rows before : list (list string)) (row : list string)
  (after : list (list string)) (column : nat) :
  data_rows rows = before ++ row :: after ->
  forallb (well_formed_row float_of_string) before = true ->
  column < 7 ->
  (forall c, c < column -> exists x, number_at float_of_string c row = Some x) ->
  number_at float_of_string column row = None ->
  OutputData_of_rows float_of_string rows
  = Err (match nth_error row column with
         | Some _ => ValueError
         | None => TypeError
         end).
Proof.
  intros Hdata Hwf Hlt Hbefore Hbad.
  rewrite OutputData_of_rows_data, Hdata, map_app, parse_rows_app.
  destruct (parse_rows_well_formed float_of_string before OutputData_empty Hwf)
    as [d1 ->].
  simpl. now rewrite (parse_row_first_bad_cell _ d1 row column).
Qed.

Lemma OutputData_first_bad_cell_witness :
  OutputData_of_rows short_decimal short_report
  = Err (match nth_error ["10"; "1.25"; "-0.75"] 3 with
         | Some _ => ValueError
         | None => TypeError
         end).
Proof.
  apply (OutputData_first_bad_cell short_decimal short_report
           [report_row1] ["10"; "1.25"; "-0.75"] [report_row3] 3).
  - reflexivity.
  - vm_compute. reflexivity.
  - lia.
  - intros c Hc.
    destruct c as [|[|[|c]]]; [vm_compute; eauto..|lia].
  - reflexivity.
Defined.

Lemma parse_row_seven float_of_string d row energy :
  energy_ground_state d = Some energy ->
  seven_numbers float_of_string row = true ->
  exists d', parse_row float_of_string d (dict_row _FIELD_NAMES row) = Ok d' /\
             energy_ground_state d' = Some energy.
Proof.
  intros Hset Hseven.
  destruct (row_get_columns row) as (H0 & H1 & H2 & H3 & H4 & H5 & H6 & H8).
  unfold parse_row.
  rewrite !(float_cell_number _ _ _ _ H0), (float_cell_number _ _ _ _ H1),
    (float_cell_number _ _ _ _ H2), (float_cell_number _ _ _ _ H3),
    (float_cell_number _ _ _ _ H4), (float_cell_number _ _ _ _ H5),
    (float_cell_number _ _ _ _ H6), H8.
  destruct (seven_numbers_at _ row 0 Hseven) as [y ->]; [lia|].
  destruct (seven_numbers_at _ row 1 Hseven) as [ec ->]; [lia|].
  destruct (seven_numbers_at _ row 2 Hseven) as [ev ->]; [lia|].
  destruct (seven_numbers_at _ row 3 Hseven) as [e ->]; [lia|].
  destruct (seven_numbers_at _ row 4 Hseven) as [ef ->]; [lia|].
  destruct (seven_numbers_at _ row 5 Hseven) as [n ->]; [lia|].
  destruct (seven_numbers_at _ row 6 Hseven) as [p ->]; [lia|].
  cbn [bind]. rewrite Hset.
  destruct (nth_error row 8); eexists; split; reflexivity || exact Hset.
Qed.

Lemma parse_rows_seven float_of_string rows : forall d energy,
  energy_ground_state d = Some energy ->
  forallb (seven_numbers float_of_string) rows = true ->
  exists d', parse_rows float_of_string d (map (dict_row _FIELD_NAMES) rows) = Ok d' /\
             energy_ground_state d' = Some energy.
Proof.
  induction rows as [|row rows IH]; simpl; intros d energy Hset Hrows; [eauto|].
  apply andb_prop in Hrows as [Hrow Hrows].
  destruct (parse_row_seven float_of_string d row energy Hset Hrow)
    as (d1 & -> & Hset1).
  simpl. now apply IH.
Qed.

(** X15. Once a row has given the ground state, the ninth cell of the rows
    after it is never read: a file whose data rows are well formed up to a
    row with a ninth cell is parsed, with a ground state, whatever the ninth
    cells of the later rows hold, as long as these rows have their seven
    numbers. *)
Theorem OutputData_later_eigen_cells_ignored
  (float_of_string : string -> option float)
  (rows before : list (list string)) (row : list string)
  (after : list (list string)) (cell : string) :
  data_rows rows = before ++ row :: after ->
  forallb (well_formed_row float_of_string) before = true ->
  well_formed_row float_of_string row = true ->
  nth_error row 8 = Some cell ->
  forallb (seven_numbers float_of_string) after = true ->
  exists d energy,
    OutputData_of_rows float_of_string rows = Ok d /\
    energy_ground_state d = Some energy.
Proof.
  intros Hdata Hbefore Hrow Hcell Hafter.
  rewrite OutputData_of_rows_data, Hdata, map_app, parse_rows_app.
  destruct (parse_rows_well_formed float_of_string before OutputData_empty
              Hbefore) as [d1 ->].
  simpl.
  destruct (parse_row_well_formed float_of_string d1 row Hrow) as [d2 Hd2].
  rewrite Hd2. simpl.
  assert (Hset : exists energy, energy_ground_state d2 = Some energy).
  { apply parse_row_Ok in Hd2
      as (y & ec & ev & e & ef & n & p & _ & _ & _ & _ & _ & _ & _
          & _ & _ & _ & _ & _ & _ & _ & Hg).
    rewrite Hcell in Hg. destruct (energy_ground_state d1) as [energy|].
    - destruct Hg as [Hg _]. eauto.
    - destruct Hg as (energy & _ & Hg & _). eauto. }
  destruct Hset as [energy Hset].
  destruct (parse_rows_seven float_of_string after d2 energy Hset Hafter)
    as (d & Hd & He).
  exists d, energy. now split.
Qed.

Lemma OutputData_later_eigen_cells_ignored_witness :
  exists d energy,
    OutputData_of_rows short_decimal noisy_report = Ok d /\
    energy_ground_state d = Some energy.
Proof.
  apply (OutputData_later_eigen_cells_ignored short_decimal noisy_report
           [report_row1] report_row2
           [["25"; "1.0"; "-1.0"; "300"; "0.25"; "50"; "60"; "5"; "n/a"];
            ["40"; "1.0"; "-1.0"; "300"; "0.25"; "50"; "60"; "5"; ""]]
           "0.125").
  - reflexivity.
  - vm_compute. reflexivity.
  - vm_compute. reflexivity.
  - reflexivity.
  - vm_compute. reflexivity.
Defined.

(** X16. Before the ground state is set, a ninth cell that is there has to
    hold a number: in a file whose data rows are well formed and without
    ninth cell up to a row with its seven numbers and a ninth cell that does
    not hold a number (an empty cell after a trailing tab, for one), the
    parse raises [ValueError]. *)
Theorem OutputData_bad_eigen_cell
  (float_of_string : string -> option float)
  (rows before : list (list string)) (row : list string)
  (after : list (list string)) (cell : string) :
  data_rows rows = before ++ row :: after ->
  forallb (well_formed_row float_of_string) before = true ->
  (forall r, In r before -> nth_error r 8 = None) ->
  seven_numbers float_of_string row = true ->
  nth_error row 8 = Some cell ->
  float_of_string cell = None ->
  OutputData_of_rows float_of_string rows = Err ValueError.
Proof.
  intros Hdata Hwf Hnone Hseven Hcell Hbad.
  rewrite OutputData_of_rows_data, Hdata, map_app, parse_rows_app.
  destruct (parse_rows_well_formed float_of_string before OutputData_empty Hwf)
    as [d1 Hd1].
  rewrite Hd1. simpl.
  assert (Hunset : energy_ground_state d1 = None).
  { destruct (parse_rows_ground_state float_of_string before _ _ Hd1
                eq_refl eq_refl)
      as [(_ & He & _)|(b & r & a & c & energy & y & -> & _ & Hc & _)];
      [exact He|].
    rewrite Hnone in Hc; [discriminate|]. apply in_or_app. right. now left. }
  destruct (row_get_columns row) as (H0 & H1 & H2 & H3 & H4 & H5 & H6 & H8).
  unfold parse_row.
  rewrite !(float_cell_number _ _ _ _ H0), (float_cell_number _ _ _ _ H1),
    (float_cell_number _ _ _ _ H2), (float_cell_number _ _ _ _ H3),
    (float_cell_number _ _ _ _ H4), (float_cell_number _ _ _ _ H5),
    (float_cell_number _ _ _ _ H6), H8.
  destruct (seven_numbers_at _ row 0 Hseven) as [y ->]; [lia|].
  destruct (seven_numbers_at _ row 1 Hseven) as [ec ->]; [lia|].
  destruct (seven_numbers_at _ row 2 Hseven) as [ev ->]; [lia|].
  destruct (seven_numbers_at _ row 3 Hseven) as [e ->]; [lia|].
  destruct (seven_numbers_at _ row 4 Hseven) as [ef ->]; [lia|].
  destruct (seven_numbers_at _ row 5 Hseven) as [n ->]; [lia|].
  destruct (seven_numbers_at _ row 6 Hseven) as [p ->]; [lia|].
  cbn [bind]. rewrite Hcell, Hunset. cbn [float_]. rewrite Hbad. reflexivity.
Qed.

Lemma OutputData_bad_eigen_cell_witness :
  OutputData_of_rows short_decimal trailing_tab_report = Err ValueError.
Proof.
  apply (OutputData_bad_eigen_cell short_decimal trailing_tab_report
           [report_row1]
           ["10"; "1.25"; "-0.75"; "200"; "0.25"; "30"; "40"; "5"; ""]
           [] "").
  - reflexivity.
  - vm_compute. reflexivity.
  - intros r [<-|[]]. reflexivity.
  - vm_compute. reflexivity.
  - reflexivity.
  - reflexivity.
Defined.

(** ** Points and identifiers *)

Lemma in_product_members {A : Type} (ls : list (list A)) : forall comb,
  In comb (product ls) -> Forall2 (fun x l => In x l) comb ls.
Proof.
  induction ls as [|l ls IH]; simpl; intros comb Hin.
  - destruct Hin as [<-|[]]. constructor.
  - apply in_flat_map in Hin as (x & Hx & Hin).
    apply in_map_iff in Hin as (c & <- & Hc). constructor; [exact Hx|now apply IH].
Qed.

(** X17. Every point of a sweep with variables binds each variable of the
    manager, in order, to one of the values of that variable. *)
Theorem generate_variables_members cs vs pm point :
  init cs vs = Ok pm ->
  vs <> [] ->
  In point (generate_variables pm) ->
  Forall2 (fun item entry => fst item = fst entry /\ In (snd item) (snd entry))
          point (_variables pm).
Proof.
  intros Hinit Hvs Hin.
  pose proof (init_NoDup _ _ _ Hinit) as Hnd.
  assert (Hne : _variables pm <> []).
  { apply init_variables_inv in Hinit as (H & _ & _).
    eapply init_variables_not_nil; [exact H|now right]. }
  rewrite generate_variables_cons in Hin by assumption.
  apply in_map_iff in Hin as (comb & <- & Hc).
  apply in_product_members in Hc. unfold keys, values in *.
  clear -Hc. revert comb Hc.
  induction (_variables pm) as [|[k vals] d IH]; intros comb Hc;
    inversion Hc; subst; simpl; constructor.
  - simpl. now split.
  - now apply IH.
Qed.

Lemma generate_variables_members_witness :
  Forall2 (fun item entry => fst item = fst entry /\ In (snd item) (snd entry))
          [("V", 0.5%float); ("W", 1.2000000000000002%float)]
          (_variables sweep_manager).
Proof.
  apply (generate_variables_members sweep_constants sweep_variables
           sweep_manager [("V", 0.5%float); ("W", 1.2000000000000002%float)]
           init_sweep).
  - discriminate.
  - vm_compute. do 6 right. left. reflexivity.
Defined.

Lemma dir_name_segments_items (F : Formatter) formats (items : dict float) :
  dir_name_segments F formats items
  = match items with
    | [] => Ok []
    | item :: rest =>
        seg <- segment_result F formats item ;;
        results <- dir_name_segments F formats rest ;;
        Ok (seg :: results)
    end.
Proof.
  destruct items as [|[k v] rest]; [reflexivity|]. simpl.
  unfold segment_result. simpl.
  destruct (dict_get formats k) as [[format_str|]|]; try reflexivity.
  now destruct (str_format F format_str v).
Qed.

(** X18. The identifier is built item by item: the first item of the point
    that has no entry in the formats ([KeyError]), whose format is [None]
    ([AttributeError]) or whose format [str.format] rejects decides the
    exception of [_get_dir_name], whatever the items after it; and when
    every item gives a segment, the identifier is these segments joined by
    underscores. *)
Theorem get_dir_name_item_by_item
  (F : Formatter) (pm : ParamsManager) (before : dict float)
  (segs : list string) :
  Forall2 (fun item seg =>
             segment_result F (_variable_formats pm) item = Ok seg)
          before segs ->
  _get_dir_name F pm before = Ok (String.concat "_" segs) /\
  forall item after e,
    segment_result F (_variable_formats pm) item = Err e ->
    _get_dir_name F pm (before ++ item :: after) = Err e.
Proof.
  intros HF. unfold _get_dir_name. split.
  - assert (H : dir_name_segments F (_variable_formats pm) before = Ok segs).
    { induction HF as [|item seg before segs Hitem HF IH];
        rewrite dir_name_segments_items; [reflexivity|].
      now rewrite Hitem, IH. }
    now rewrite H.
  - intros item after e Hitem.
    assert (H : dir_name_segments F (_variable_formats pm)
                                  (before ++ item :: after) = Err e).
    { induction HF as [|item0 seg before segs Hitem0 HF IH]; simpl app;
        rewrite dir_name_segments_items.
      - now rewrite Hitem.
      - now rewrite Hitem0, IH. }
    now rewrite H.
Qed.

Lemma get_dir_name_item_by_item_witness :
  _get_dir_name fixed_formatter half_formatted_manager [("V", 0.5%float)]
  = Ok (String.concat "_" ["V(0.5)"]) /\
  forall item after e,
    segment_result fixed_formatter (_variable_formats half_formatted_manager)
                   item = Err e ->
    _get_dir_name fixed_formatter half_formatted_manager
                  ([("V", 0.5%float)] ++ item :: after) = Err e.
Proof.
  apply (get_dir_name_item_by_item fixed_formatter half_formatted_manager
           [("V", 0.5%float)] ["V(0.5)"]).
  constructor; [vm_compute; reflexivity|constructor].
Defined.

(** In that sweep the variable without format stops the identifier after the
    first segment has been built. *)
Example get_dir_name_half_formatted :
  _get_dir_name fixed_formatter half_formatted_manager
                [("V", 0.5%float); ("W", 1.25%float)] = Err AttributeError.
Proof. vm_compute. reflexivity. Qed.
